(** * Portfolio data clearinghouse: ingestion, positions, compliance, reconciliation

    A shallow embedding of [ingestion.py], [validators.py], [models.py] and of
    the query handlers of [app.py].

    Conventions of the embedding.
    - Python [int] is [Z]; report counters, which only count up from zero,
      are [nat].
    - [Decimal] is an exact rational [Q].  The theorems below only use the
      order and the ring structure of the values, which [Decimal] shares up to
      its rounding of quotients; [float(...)] of a result is the same
      rational.
    - A [date] is its proleptic ordinal ([date.toordinal()]), a [Z].
    - Strings are compared byte-wise ([String.le]), which on UTF-8 text is
      Python's order on code points; [len] counts bytes, which is the
      number of characters of ASCII text.
    - A SQLAlchemy [Session] is the content of the three tables as the
      current transaction sees it.  [models.get_session] builds sessions with
      [sessionmaker(bind=engine)], hence with autoflush on: a [query] issued
      after [session.add] sees the added row.  [commit] keeps the working
      content, [rollback] returns to the content at the start of the call.
    - The HTTP layer (argument parsing, [jsonify], status codes) is left out;
      each handler is modelled from the parsed [query_date] onwards. *)

From Stdlib Require Import QArith Qabs Lqa Ascii.
From stdpp Require Import gmap strings list sorting pretty.

Definition date := Z.

(** ** models.py *)

Module Account.
Record t := mk {
  account_id : string;
  custodian_name : option string;
  created_at : Z
}.
End Account.

Module Trade.
Record t := mk {
  trade_date : date;
  account_id : string;
  ticker : string;
  quantity : Z;
  price : option Q;
  trade_type : option string;
  settlement_date : option date;
  market_value : option Q;
  source_system : option string;
  file_format : string;
  source_file : option string
}.
End Trade.

Module Position.
Record t := mk {
  report_date : date;
  account_id : string;
  ticker : string;
  shares : Z;
  market_value : Q;
  custodian_ref : option string;
  source_file : option string
}.
End Position.

(** The tables as one transaction sees them.  [accounts] is keyed by the
    primary key [account_id]; [trades] and [positions] are in insertion
    order (the auto-increment [id]). *)
Record Session := mkSession {
  accounts : gmap string Account.t;
  trades : list Trade.t;
  positions : list Position.t
}.

Definition empty_session : Session := mkSession ∅ [] [].

(** [session.query(Account).filter_by(account_id=...).first()] *)
Definition query_account (session : Session) (account_id : string)
    : option Account.t :=
  accounts session !! account_id.

(** [session.add(account)] of a new account, and the write to the row
    stored under [account_id]. *)
Definition put_account (session : Session) (account_id : string)
    (a : Account.t) : Session :=
  mkSession (<[account_id := a]> (accounts session))
            (trades session) (positions session).

Definition add_trade (session : Session) (t : Trade.t) : Session :=
  mkSession (accounts session) (trades session ++ [t]) (positions session).

Definition add_position (session : Session) (p : Position.t) : Session :=
  mkSession (accounts session) (trades session) (positions session ++ [p]).

(** ** Python helpers *)

(** Truth value of a [str] or of an optional [str]: [None] and [""] are
    false. *)
Definition str_truthy (s : string) : bool :=
  match s with EmptyString => false | _ => true end.

Definition opt_str_truthy (o : option string) : bool :=
  match o with Some s => str_truthy s | None => false end.

(** Truth value of an optional [Decimal]: [None] and zero are false. *)
Definition opt_dec_truthy (o : option Q) : bool :=
  match o with Some q => negb (Qeq_bool q 0) | None => false end.

(** [a < b] and [a > b] on [Decimal]. *)
Definition Qltb (a b : Q) : bool := negb (Qle_bool b a).

(** [s.split(sep)] for a one-character separator: never the empty list. *)
Fixpoint split (sep : ascii) (s : string) : list string :=
  match s with
  | EmptyString => [EmptyString]
  | String c rest =>
      if decide (c = sep) then EmptyString :: split sep rest
      else match split sep rest with
           | [] => [String c EmptyString]
           | p :: ps => String c p :: ps
           end
  end.

(** [sorted(l, key=...)] is stable: insertion from the right, an element
    going before the first one that is not smaller. *)
Section sorted.
Context {A : Type} (le : A → A → bool).

Fixpoint sorted_insert (x : A) (l : list A) : list A :=
  match l with
  | [] => [x]
  | y :: l' => if le x y then x :: y :: l' else y :: sorted_insert x l'
  end.

Definition sorted (l : list A) : list A := foldr sorted_insert [] l.
End sorted.

Definition str_leb (a b : string) : bool := bool_decide (a ≤ b)%string.

(** Order of Python pairs of strings: lexicographic. *)
Definition key_leb (k1 k2 : string * string) : bool :=
  if decide (k1.1 = k2.1) then str_leb k1.2 k2.2 else str_leb k1.1 k2.1.

(** ** ingestion.py: custodians and accounts *)

Definition extract_custodian_name (custodian_ref : option string)
    : option string :=
  if negb (opt_str_truthy custodian_ref) then None
  else
    let parts := split "_" (default EmptyString custodian_ref) in
    if decide (2 ≤ length parts)
    then Some ("CUSTODIAN_" +:+ default EmptyString (parts !! 1))
    else None.

(** Returns the account and the session after the (possible) insert or
    update.  [now] is the clock reading that the column default of
    [created_at] takes on insert. *)
Definition ensure_account_exists (now : Z) (session : Session)
    (account_id : string) (custodian : option string)
    : Account.t * Session :=
  match query_account session account_id with
  | None =>
      let account := Account.mk account_id custodian now in
      (account, put_account session account_id account)
  | Some account =>
      if opt_str_truthy custodian
         && negb (opt_str_truthy (Account.custodian_name account))
      then
        let account' := Account.mk (Account.account_id account) custodian
                                   (Account.created_at account) in
        (account', put_account session account_id account')
      else (account, session)
  end.

(** ** validators.py

    A raw record is the mapping that [csv.DictReader] or [yaml.safe_load]
    hands to the pydantic model, seen after pydantic's coercion of each
    scalar: a field is [None] when its column is absent or its text does
    not coerce to the declared type ([strptime] for dates, [int],
    [Decimal]).  The constraints written in the models ([min_length],
    [max_length], [gt], the enum, the field validators) are checked here.
    A failure carries one entry per offending field, as pydantic's
    [ValidationError] does. *)

Definition ValidationError := list (string * string).

(** [str(e)]: the wording is pydantic's; nothing below depends on it. *)
Definition str_exc (e : ValidationError) : string :=
  pretty (length e) +:+ " validation error(s)"
  +:+ foldr (λ le acc, "; " +:+ le.1 +:+ ": " +:+ le.2 +:+ acc) "" e.

Definition required {A} (loc : string) (o : option A) : ValidationError + A :=
  match o with
  | Some a => inr a
  | None => inl [(loc, "missing or not of the declared type")]
  end.

Definition constrain {A} (loc msg : string) (ok : A → bool)
    (r : ValidationError + A) : ValidationError + A :=
  match r with
  | inr a => if ok a then inr a else inl [(loc, msg)]
  | inl e => inl e
  end.

Definition errors_of {A} (r : ValidationError + A) : ValidationError :=
  match r with inl e => e | inr _ => [] end.

Definition rejected {A} (r : ValidationError + A) : bool :=
  match r with inl _ => true | inr _ => false end.

Definition length_between (lo hi : nat) (s : string) : bool :=
  bool_decide (lo ≤ String.length s ≤ hi).

Definition min_length (lo : nat) (s : string) : bool :=
  bool_decide (lo ≤ String.length s).

Inductive TradeType := BUY | SELL.

Definition TradeType_value (t : TradeType) : string :=
  match t with BUY => "BUY" | SELL => "SELL" end.

Definition TradeType_of (s : string) : option TradeType :=
  if decide (s = "BUY") then Some BUY
  else if decide (s = "SELL") then Some SELL
  else None.

Record RawTradeFormat1 := mkRawTradeFormat1 {
  raw_TradeDate : option date;
  raw_AccountID : option string;
  raw_Ticker : option string;
  raw_Quantity : option Z;
  raw_Price : option Q;
  raw_TradeType : option string;
  raw_SettlementDate : option date
}.

Module TradeFormat1.
Record t := mk {
  trade_date : date;
  account_id : string;
  ticker : string;
  quantity : Z;
  price : Q;
  trade_type : TradeType;
  settlement_date : date
}.

(** [check_settlement_after_trade]: [info.data] holds [trade_date] only
    when that field validated. *)
Definition check_settlement_after_trade
    (trade_date : ValidationError + date) (v : date) : bool :=
  match trade_date with
  | inr d => negb (bool_decide (v < d)%Z)
  | inl _ => true
  end.

Definition validate (row : RawTradeFormat1) : ValidationError + t :=
  let d := required "TradeDate" (raw_TradeDate row) in
  let a := constrain "AccountID" "length must be between 1 and 50"
             (length_between 1 50) (required "AccountID" (raw_AccountID row)) in
  let k := constrain "Ticker" "length must be between 1 and 20"
             (length_between 1 20) (required "Ticker" (raw_Ticker row)) in
  let q := constrain "Quantity" "must be greater than 0"
             (λ n, bool_decide (0 < n)%Z)
             (required "Quantity" (raw_Quantity row)) in
  let p := constrain "Price" "must be greater than 0"
             (λ x, Qltb 0 x)
             (required "Price" (raw_Price row)) in
  let y := match required "TradeType" (raw_TradeType row) with
           | inr s => required "TradeType" (TradeType_of s)
           | inl e => inl e
           end in
  let s := constrain "SettlementDate"
             "Settlement date cannot be before trade date"
             (check_settlement_after_trade d)
             (required "SettlementDate" (raw_SettlementDate row)) in
  match d, a, k, q, p, y, s with
  | inr d, inr a, inr k, inr q, inr p, inr y, inr s =>
      inr (mk d a k q p y s)
  | _, _, _, _, _, _, _ =>
      inl (errors_of d ++ errors_of a ++ errors_of k ++ errors_of q
           ++ errors_of p ++ errors_of y ++ errors_of s)
  end.
End TradeFormat1.

Record RawTradeFormat2 := mkRawTradeFormat2 {
  raw_REPORT_DATE : option date;
  raw_ACCOUNT_ID : option string;
  raw_SECURITY_TICKER : option string;
  raw_SHARES : option Z;
  raw_MARKET_VALUE : option Q;
  raw_SOURCE_SYSTEM : option string
}.

Module TradeFormat2.
Record t := mk {
  report_date : date;
  account_id : string;
  ticker : string;
  shares : Z;
  market_value : Q;
  source_system : string
}.

(** [check_market_value_sign] accepts every value. *)
Definition validate (row : RawTradeFormat2) : ValidationError + t :=
  let d := required "REPORT_DATE" (raw_REPORT_DATE row) in
  let a := constrain "ACCOUNT_ID" "length must be between 1 and 50"
             (length_between 1 50)
             (required "ACCOUNT_ID" (raw_ACCOUNT_ID row)) in
  let k := constrain "SECURITY_TICKER" "length must be between 1 and 20"
             (length_between 1 20)
             (required "SECURITY_TICKER" (raw_SECURITY_TICKER row)) in
  let n := required "SHARES" (raw_SHARES row) in
  let v := required "MARKET_VALUE" (raw_MARKET_VALUE row) in
  let c := constrain "SOURCE_SYSTEM" "length must be at least 1"
             (min_length 1)
             (required "SOURCE_SYSTEM" (raw_SOURCE_SYSTEM row)) in
  match d, a, k, n, v, c with
  | inr d, inr a, inr k, inr n, inr v, inr c => inr (mk d a k n v c)
  | _, _, _, _, _, _ =>
      inl (errors_of d ++ errors_of a ++ errors_of k ++ errors_of n
           ++ errors_of v ++ errors_of c)
  end.

Definition derived_price (self : t) : option Q :=
  if decide (shares self ≠ 0%Z)
  then Some (Qabs (market_value self / inject_Z (shares self)))
  else None.
End TradeFormat2.

Record RawBankPosition := mkRawBankPosition {
  raw_account_id : option string;
  raw_ticker : option string;
  raw_shares : option Z;
  raw_market_value : option Q;
  raw_custodian_ref : option string
}.

Module BankPosition.
Record t := mk {
  account_id : string;
  ticker : string;
  shares : Z;
  market_value : Q;
  custodian_ref : string
}.

(** [check_value_positive] accepts every value. *)
Definition validate (row : RawBankPosition) : ValidationError + t :=
  let a := constrain "account_id" "length must be between 1 and 50"
             (length_between 1 50)
             (required "account_id" (raw_account_id row)) in
  let k := constrain "ticker" "length must be between 1 and 20"
             (length_between 1 20) (required "ticker" (raw_ticker row)) in
  let n := required "shares" (raw_shares row) in
  let v := required "market_value" (raw_market_value row) in
  let c := constrain "custodian_ref" "length must be at least 1"
             (min_length 1)
             (required "custodian_ref" (raw_custodian_ref row)) in
  match a, k, n, v, c with
  | inr a, inr k, inr n, inr v, inr c => inr (mk a k n v c)
  | _, _, _, _, _ =>
      inl (errors_of a ++ errors_of k ++ errors_of n ++ errors_of v
           ++ errors_of c)
  end.
End BankPosition.

(** The document that [yaml.safe_load] returns.  [raw_report_date] is
    [Some d] when the value is an 8-digit string that
    [strptime(v, "%Y%m%d")] accepts. *)
Record RawBankPositionFile := mkRawBankPositionFile {
  raw_report_date : option date;
  raw_positions : list RawBankPosition
}.

Module BankPositionFile.
Record t := mk {
  report_date : date;
  positions : list BankPosition.t
}.

(** The positions of a document are validated together with it:
    [positions: List[BankPosition]]. *)
Fixpoint validate_positions (rows : list RawBankPosition)
    : ValidationError + list BankPosition.t :=
  match rows with
  | [] => inr []
  | row :: rows' =>
      match BankPosition.validate row, validate_positions rows' with
      | inr p, inr ps => inr (p :: ps)
      | r, rs => inl (errors_of r ++ errors_of rs)
      end
  end.

Definition validate (data : RawBankPositionFile) : ValidationError + t :=
  let d := match raw_report_date data with
           | Some d => inr d
           | None => inl [("report_date", "Invalid report_date format")]
           end in
  match d, validate_positions (raw_positions data) with
  | inr d, inr ps => inr (mk d ps)
  | d, ps => inl (errors_of d ++ errors_of ps)
  end.
End BankPositionFile.

Record DataQualityReport := mkReport {
  file_name : string;
  file_format : string;
  records_processed : nat;
  records_valid : nat;
  records_failed : nat;
  errors : list string;
  warnings : list string;
  new_accounts_created : nat;
  custodians_detected : list string
}.

Definition new_report (file_name file_format : string) : DataQualityReport :=
  mkReport file_name file_format 0 0 0 [] [] 0 [].


(** The in-place updates of a report. *)
Definition incr_processed (r : DataQualityReport) : DataQualityReport :=
  mkReport (file_name r) (file_format r) (S (records_processed r))
    (records_valid r) (records_failed r) (errors r) (warnings r)
    (new_accounts_created r) (custodians_detected r).

Definition incr_valid (r : DataQualityReport) : DataQualityReport :=
  mkReport (file_name r) (file_format r) (records_processed r)
    (S (records_valid r)) (records_failed r) (errors r) (warnings r)
    (new_accounts_created r) (custodians_detected r).

Definition incr_failed (r : DataQualityReport) : DataQualityReport :=
  mkReport (file_name r) (file_format r) (records_processed r)
    (records_valid r) (S (records_failed r)) (errors r) (warnings r)
    (new_accounts_created r) (custodians_detected r).

Definition append_error (msg : string) (r : DataQualityReport)
    : DataQualityReport :=
  mkReport (file_name r) (file_format r) (records_processed r)
    (records_valid r) (records_failed r) (errors r ++ [msg]) (warnings r)
    (new_accounts_created r) (custodians_detected r).

Definition incr_new_accounts (r : DataQualityReport) : DataQualityReport :=
  mkReport (file_name r) (file_format r) (records_processed r)
    (records_valid r) (records_failed r) (errors r) (warnings r)
    (S (new_accounts_created r)) (custodians_detected r).

Definition set_custodians (l : list string) (r : DataQualityReport)
    : DataQualityReport :=
  mkReport (file_name r) (file_format r) (records_processed r)
    (records_valid r) (records_failed r) (errors r) (warnings r)
    (new_accounts_created r) l.

(** ** ingestion.py: the three ingestion procedures

    What a procedure reads from [file_path].  [csv_rows] are the rows that
    the [DictReader] yields, [csv_failure] the text of the exception that
    [open] or the reader raises after them, if any.  [yaml_view] is the
    document, or the text of the exception of [open], of [yaml.safe_load]
    or of unpacking a document that is not a mapping.  The procedures take
    the base name of the file, [Path(file_path).name], as [file_name]. *)
Record CsvRead (Row : Type) := mkCsvRead {
  csv_rows : list Row;
  csv_failure : option string
}.
Arguments mkCsvRead {Row} _ _.
Arguments csv_rows {Row} _.
Arguments csv_failure {Row} _.

Record File := mkFile {
  csv_view : CsvRead RawTradeFormat1;
  pipe_view : CsvRead RawTradeFormat2;
  yaml_view : string + RawBankPositionFile
}.

(** The [Trade] that [ingest_trade_format1] builds from a validated row. *)
Definition format1_trade (report : DataQualityReport)
    (validated : TradeFormat1.t) : Trade.t :=
  let quantity := TradeFormat1.quantity validated in
  let quantity :=
    match TradeFormat1.trade_type validated with
    | SELL => (- quantity)%Z
    | BUY => quantity
    end in
  let market_value :=
    (TradeFormat1.price validated * inject_Z (Z.abs quantity))%Q in
  Trade.mk (TradeFormat1.trade_date validated)
           (TradeFormat1.account_id validated)
           (TradeFormat1.ticker validated)
           quantity
           (Some (TradeFormat1.price validated))
           (Some (TradeType_value (TradeFormat1.trade_type validated)))
           (Some (TradeFormat1.settlement_date validated))
           (Some market_value)
           None
           (file_format report)
           (Some (file_name report)).

(** One turn of the loop of [ingest_trade_format1]. *)
Definition format1_row (now : Z) (row_num : nat) (row : RawTradeFormat1)
    (st : DataQualityReport * Session) : DataQualityReport * Session :=
  let report := incr_processed st.1 in
  let session := st.2 in
  match TradeFormat1.validate row with
  | inr validated =>
      let session :=
        (ensure_account_exists now session
           (TradeFormat1.account_id validated) None).2 in
      let report :=
        match query_account session (TradeFormat1.account_id validated) with
        | None => incr_new_accounts report
        | Some _ => report
        end in
      let trade := format1_trade report validated in
      (incr_valid report, add_trade session trade)
  | inl e =>
      (append_error ("Row " +:+ pretty row_num +:+ ": " +:+ str_exc e)
         (incr_failed report),
       session)
  end.

Fixpoint format1_loop (now : Z) (row_num : nat) (rows : list RawTradeFormat1)
    (st : DataQualityReport * Session) : DataQualityReport * Session :=
  match rows with
  | [] => st
  | row :: rows' =>
      format1_loop now (S row_num) rows' (format1_row now row_num row st)
  end.

Definition ingest_trade_format1 (now : Z) (session : Session)
    (file_name : string) (file : CsvRead RawTradeFormat1)
    : DataQualityReport * Session :=
  let report := new_report file_name "CSV_FORMAT1" in
  let st := format1_loop now 2 (csv_rows file) (report, session) in
  match csv_failure file with
  | None => st
  | Some e => (append_error ("File processing error: " +:+ e) st.1, session)
  end.

Definition format2_trade (report : DataQualityReport)
    (validated : TradeFormat2.t) : Trade.t :=
  Trade.mk (TradeFormat2.report_date validated)
           (TradeFormat2.account_id validated)
           (TradeFormat2.ticker validated)
           (TradeFormat2.shares validated)
           (TradeFormat2.derived_price validated)
           None
           None
           (Some (TradeFormat2.market_value validated))
           (Some (TradeFormat2.source_system validated))
           (file_format report)
           (Some (file_name report)).

(** One turn of the loop of [ingest_trade_format2]; the state also holds
    the local set [custodians]. *)
Definition format2_row (now : Z) (row_num : nat) (row : RawTradeFormat2)
    (st : DataQualityReport * Session * gset string)
    : DataQualityReport * Session * gset string :=
  let report := incr_processed st.1.1 in
  let session := st.1.2 in
  let custodians := st.2 in
  match TradeFormat2.validate row with
  | inr validated =>
      let custodians := {[TradeFormat2.source_system validated]} ∪ custodians in
      let session :=
        (ensure_account_exists now session
           (TradeFormat2.account_id validated)
           (Some (TradeFormat2.source_system validated))).2 in
      let report :=
        match query_account session (TradeFormat2.account_id validated) with
        | None => incr_new_accounts report
        | Some _ => report
        end in
      let trade := format2_trade report validated in
      (incr_valid report, add_trade session trade, custodians)
  | inl e =>
      (append_error ("Row " +:+ pretty row_num +:+ ": " +:+ str_exc e)
         (incr_failed report),
       session, custodians)
  end.

Fixpoint format2_loop (now : Z) (row_num : nat) (rows : list RawTradeFormat2)
    (st : DataQualityReport * Session * gset string)
    : DataQualityReport * Session * gset string :=
  match rows with
  | [] => st
  | row :: rows' =>
      format2_loop now (S row_num) rows' (format2_row now row_num row st)
  end.

Definition ingest_trade_format2 (now : Z) (session : Session)
    (file_name : string) (file : CsvRead RawTradeFormat2)
    : DataQualityReport * Session :=
  let report := new_report file_name "PIPE_FORMAT2" in
  let st := format2_loop now 2 (csv_rows file) (report, session, ∅) in
  match csv_failure file with
  | None => (set_custodians (sorted str_leb (elements st.2)) st.1.1, st.1.2)
  | Some e =>
      (append_error ("File processing error: " +:+ e) st.1.1, session)
  end.

(** One turn of the loop of [ingest_bank_positions], over a position that
    the document validation has already accepted.  Nothing in the body
    raises, so the handler of the loop is never entered. *)
Definition bank_row (now : Z) (report_date : date)
    (position_data : BankPosition.t)
    (st : DataQualityReport * Session * gset string)
    : DataQualityReport * Session * gset string :=
  let report := incr_processed st.1.1 in
  let session := st.1.2 in
  let custodians := st.2 in
  let custodian :=
    extract_custodian_name (Some (BankPosition.custodian_ref position_data)) in
  let custodians :=
    match custodian with
    | Some c => if str_truthy c then {[c]} ∪ custodians else custodians
    | None => custodians
    end in
  let session :=
    (ensure_account_exists now session
       (BankPosition.account_id position_data) custodian).2 in
  let report :=
    match query_account session (BankPosition.account_id position_data) with
    | None => incr_new_accounts report
    | Some _ => report
    end in
  let position :=
    Position.mk report_date
                (BankPosition.account_id position_data)
                (BankPosition.ticker position_data)
                (BankPosition.shares position_data)
                (BankPosition.market_value position_data)
                (Some (BankPosition.custodian_ref position_data))
                (Some (file_name report)) in
  (incr_valid report, add_position session position, custodians).

Definition ingest_bank_positions (now : Z) (session : Session)
    (file_name : string) (file : string + RawBankPositionFile)
    : DataQualityReport * Session :=
  let report := new_report file_name "YAML_POSITIONS" in
  match file with
  | inl e => (append_error ("File processing error: " +:+ e) report, session)
  | inr data =>
      match BankPositionFile.validate data with
      | inl e =>
          (append_error ("File processing error: " +:+ str_exc e) report,
           session)
      | inr validated_file =>
          let st :=
            foldl (λ st p,
                     bank_row now (BankPositionFile.report_date validated_file)
                       p st)
                  (report, session, ∅)
                  (BankPositionFile.positions validated_file) in
          (set_custodians (sorted str_leb (elements st.2)) st.1.1, st.1.2)
      end
  end.

Definition ingest_file (now : Z) (session : Session) (file_name : string)
    (file : File) (file_format : string) : DataQualityReport * Session :=
  if decide (file_format = "CSV_FORMAT1")
  then ingest_trade_format1 now session file_name (csv_view file)
  else if decide (file_format = "PIPE_FORMAT2")
  then ingest_trade_format2 now session file_name (pipe_view file)
  else if decide (file_format = "YAML_POSITIONS")
  then ingest_bank_positions now session file_name (yaml_view file)
  else
    (append_error ("Unknown file format: " +:+ file_format)
       (new_report file_name file_format),
     session).

(** ** app.py: query handlers *)

(** A Python [dict] where the order of insertion is observed: assigning to
    a present key keeps its place, a new key goes last. *)
Section pydict.
Context {K V : Type} `{EqDecision K}.

Fixpoint dict_get (k : K) (d : list (K * V)) : option V :=
  match d with
  | [] => None
  | (k', v) :: d' => if decide (k = k') then Some v else dict_get k d'
  end.

Fixpoint dict_set (k : K) (v : V) (d : list (K * V)) : list (K * V) :=
  match d with
  | [] => [(k, v)]
  | (k', v') :: d' =>
      if decide (k = k') then (k, v) :: d' else (k', v') :: dict_set k v d'
  end.
End pydict.

(** [sum(...)] of decimals. *)
Definition Qsum (l : list Q) : Q := foldl Qplus 0%Q l.

(** The cost that one trade adds in both position paths. *)
Definition trade_cost (trade : Trade.t) : Q :=
  if opt_dec_truthy (Trade.price trade)
  then (default 0 (Trade.price trade) * inject_Z (Z.abs (Trade.quantity trade)))%Q
  else if opt_dec_truthy (Trade.market_value trade)
  then Qabs (default 0%Q (Trade.market_value trade))
  else 0%Q.

Module FallbackPosition.
Record t := mk {
  ticker : string;
  shares : Z;
  cost_basis : Q;
  total_cost : Q;
  market_value : option Q;
  note : string
}.
End FallbackPosition.

Module BankView.
Record t := mk {
  ticker : string;
  shares : Z;
  market_value : Q;
  cost_basis : Q;
  total_cost : Q;
  unrealized_pnl : Q;
  custodian_ref : option string
}.
End BankView.

Inductive PositionsResponse :=
  | NoData
  | CalculatedFromTrades (positions : list FallbackPosition.t)
  | FromBank (positions : list BankView.t) (total_market_value : Q).

(** The aggregation loop of [calculate_positions_from_trades]; a value of
    [positions_map] is the pair of ["shares"] and ["total_cost"]. *)
Definition fallback_step (positions_map : list (string * (Z * Q)))
    (trade : Trade.t) : list (string * (Z * Q)) :=
  let cur := default (0%Z, 0%Q) (dict_get (Trade.ticker trade) positions_map) in
  dict_set (Trade.ticker trade)
    ((cur.1 + Trade.quantity trade)%Z, (cur.2 + trade_cost trade)%Q)
    positions_map.

Definition fallback_result (positions_map : list (string * (Z * Q)))
    : list FallbackPosition.t :=
  omap (λ item : string * (Z * Q),
          let '(ticker, data) := item in
          if decide (data.1 ≠ 0%Z)
          then
            let cost_basis :=
              if decide (data.1 ≠ 0%Z) then (data.2 / inject_Z data.1)%Q
              else 0%Q in
            Some (FallbackPosition.mk ticker data.1 cost_basis data.2 None
                    "Calculated from trades; no current market value")
          else None)
       positions_map.

Definition calculate_positions_from_trades (session : Session)
    (account_id : string) (query_date : date) : PositionsResponse :=
  let trades :=
    filter (λ t, Trade.account_id t = account_id
                 ∧ (Trade.trade_date t ≤ query_date)%Z)
           (trades session) in
  match trades with
  | [] => NoData
  | _ => CalculatedFromTrades (fallback_result (foldl fallback_step [] trades))
  end.

Definition get_positions (session : Session) (account_id : string)
    (query_date : date) : PositionsResponse :=
  let positions :=
    filter (λ p, Position.account_id p = account_id
                 ∧ Position.report_date p = query_date)
           (positions session) in
  match positions with
  | [] => calculate_positions_from_trades session account_id query_date
  | _ =>
      let result :=
        map (λ pos,
               let trades :=
                 sorted (λ a b, bool_decide
                                  (Trade.trade_date a ≤ Trade.trade_date b)%Z)
                   (filter (λ t, Trade.account_id t = account_id
                                 ∧ Trade.ticker t = Position.ticker pos
                                 ∧ (Trade.trade_date t ≤ query_date)%Z)
                           (trades session)) in
               let total_cost :=
                 foldl (λ acc t, (acc + trade_cost t)%Q) 0%Q trades in
               let total_shares :=
                 foldl (λ acc t, (acc + Trade.quantity t)%Z) 0%Z trades in
               let cost_basis :=
                 if decide (total_shares ≠ 0%Z)
                 then (total_cost / inject_Z total_shares)%Q else 0%Q in
               BankView.mk (Position.ticker pos) (Position.shares pos)
                 (Position.market_value pos) cost_basis total_cost
                 (Position.market_value pos - total_cost)%Q
                 (Position.custodian_ref pos))
            positions in
      FromBank result (Qsum (map Position.market_value positions))
  end.

(** *** /compliance/concentration *)

Definition threshold : Q := 20 # 100.

Module Violation.
(** [custodian_ref] is only set by the bank computation. *)
Record t := mk {
  account_id : string;
  ticker : string;
  shares : Z;
  market_value : Q;
  account_total_value : Q;
  concentration_pct : Q;
  threshold_pct : Q;
  excess_pct : Q;
  custodian_ref : option string
}.
End Violation.

(** An element of a [positions_list]: the dict with keys ['ticker'],
    ['shares'], ['market_value'] of the trade computation, or the
    [Position] row of the bank computation read through the same three
    attributes and [custodian_ref]. *)
Module Holding.
Record t := mk {
  ticker : string;
  shares : Z;
  market_value : Q;
  custodian_ref : option string
}.
End Holding.

(** The value that one trade adds to ['total_value']: signed. *)
Definition trade_value (trade : Trade.t) : Q :=
  if opt_dec_truthy (Trade.price trade)
  then (default 0 (Trade.price trade) * inject_Z (Trade.quantity trade))%Q
  else if opt_dec_truthy (Trade.market_value trade)
  then default 0%Q (Trade.market_value trade)
  else 0%Q.

Definition concentration_step
    (positions_map : list (string * string * (Z * Q))) (trade : Trade.t)
    : list (string * string * (Z * Q)) :=
  let key := (Trade.account_id trade, Trade.ticker trade) in
  let cur := default (0%Z, 0%Q) (dict_get key positions_map) in
  dict_set key
    ((cur.1 + Trade.quantity trade)%Z, (cur.2 + trade_value trade)%Q)
    positions_map.

(** [account_positions[account_id].append(x)], creating the list first
    when the account is new. *)
Definition dict_append {V} (account_id : string) (x : V)
    (d : list (string * list V)) : list (string * list V) :=
  dict_set account_id (default [] (dict_get account_id d) ++ [x]) d.

(** "Group by account and calculate totals": aggregates with no shares
    are skipped. *)
Definition group_trade_step (account_positions : list (string * list Holding.t))
    (item : string * string * (Z * Q)) : list (string * list Holding.t) :=
  let '(account_id, ticker, data) := item in
  if decide (data.1 = 0%Z) then account_positions
  else dict_append account_id (Holding.mk ticker data.1 data.2 None)
         account_positions.

Definition group_trade_positions
    (positions_map : list (string * string * (Z * Q)))
    : list (string * list Holding.t) :=
  foldl group_trade_step [] positions_map.

(** "Group by account" of the bank computation: every row is kept. *)
Definition bank_holding (pos : Position.t) : Holding.t :=
  Holding.mk (Position.ticker pos) (Position.shares pos)
    (Position.market_value pos) (Position.custodian_ref pos).

Definition group_bank_step
    (account_positions_bank : list (string * list Holding.t))
    (pos : Position.t) : list (string * list Holding.t) :=
  dict_append (Position.account_id pos) (bank_holding pos)
    account_positions_bank.

Definition group_bank_positions (bank_positions : list Position.t)
    : list (string * list Holding.t) :=
  foldl group_bank_step [] bank_positions.

(** The body of the "Check violations" loop for one account; the two
    computations have the same text up to the attribute access. *)
Definition account_total (positions_list : list Holding.t) : Q :=
  Qsum (map Holding.market_value
          (filter (λ p, Qltb 0 (Holding.market_value p) = true) positions_list)).

Definition check_position (account_id : string) (total_value : Q)
    (pos : Holding.t) : option Violation.t :=
  if Qle_bool (Holding.market_value pos) 0 then None
  else
    let concentration :=
      if Qltb 0 total_value
      then (Holding.market_value pos / total_value)%Q else 0%Q in
    if Qltb threshold concentration
    then Some (Violation.mk account_id (Holding.ticker pos)
                 (Holding.shares pos) (Holding.market_value pos) total_value
                 (concentration * 100)%Q 20%Q
                 ((concentration - threshold) * 100)%Q
                 (Holding.custodian_ref pos))
    else None.

Definition check_account (account_id : string)
    (positions_list : list Holding.t) : list Violation.t :=
  let total_value := account_total positions_list in
  omap (check_position account_id total_value)
       (sorted (λ a b, str_leb (Holding.ticker a) (Holding.ticker b))
          positions_list).

Definition check_violations (account_positions : list (string * list Holding.t))
    : list Violation.t :=
  mbind (λ item : string * list Holding.t, check_account item.1 item.2)
    (sorted (λ a b : string * list Holding.t, str_leb a.1 b.1)
       account_positions).

Definition violations_from_trades (session : Session) (query_date : date)
    : list Violation.t :=
  let trades :=
    filter (λ t, (Trade.trade_date t ≤ query_date)%Z) (trades session) in
  check_violations (group_trade_positions (foldl concentration_step [] trades)).

Definition violations_from_bank (session : Session) (query_date : date)
    : list Violation.t :=
  let bank_positions :=
    filter (λ p, Position.report_date p = query_date) (positions session) in
  check_violations (group_bank_positions bank_positions).

(** The pair of ["from_trades"] and ["from_bank"]. *)
Definition compliance_concentration (session : Session) (query_date : date)
    : list Violation.t * list Violation.t :=
  (violations_from_trades session query_date,
   violations_from_bank session query_date).

(** *** /reconciliation *)

Module Discrepancy.
Record t := mk {
  account_id : string;
  ticker : string;
  expected_shares : Z;
  actual_shares : Z;
  difference : Z;
  status : string
}.

Definition key (d : t) : string * string := (account_id d, ticker d).
End Discrepancy.

(** Here the two dicts are only read by key and through their key sets. *)
Definition expected_positions (trades : list Trade.t)
    : gmap (string * string) Z :=
  foldl (λ m trade,
           let key := (Trade.account_id trade, Trade.ticker trade) in
           <[key := (default 0 (m !! key) + Trade.quantity trade)%Z]> m)
        ∅ trades.

Definition bank_positions_map (bank_positions : list Position.t)
    : gmap (string * string) Z :=
  foldl (λ m pos,
           <[(Position.account_id pos, Position.ticker pos)
             := Position.shares pos]> m)
        ∅ bank_positions.

Definition status_of (expected actual : Z) : string :=
  if decide (actual = 0%Z) then "missing_in_bank"
  else if decide (expected = 0%Z) then "missing_in_trades"
  else "quantity_mismatch".

(** The body of the loop over [sorted(all_keys)]. *)
Definition discrepancy_of (expected_map bank_map : gmap (string * string) Z)
    (key : string * string) : option Discrepancy.t :=
  let expected := default 0%Z (expected_map !! key) in
  let actual := default 0%Z (bank_map !! key) in
  if decide (expected ≠ actual)
  then Some (Discrepancy.mk key.1 key.2 expected actual
               (actual - expected)%Z (status_of expected actual))
  else None.

Definition find_discrepancies (expected_map bank_map : gmap (string * string) Z)
    : list Discrepancy.t :=
  let all_keys : gset (string * string) := dom expected_map ∪ dom bank_map in
  omap (discrepancy_of expected_map bank_map)
       (sorted key_leb (elements all_keys)).

Record ReconciliationResponse := mkReconciliationResponse {
  total_positions_in_bank : nat;
  total_positions_from_trades : nat;
  discrepancies_found : nat;
  discrepancies : list Discrepancy.t
}.

Definition reconciliation (session : Session) (query_date : date)
    : ReconciliationResponse :=
  let bank_positions :=
    filter (λ p, Position.report_date p = query_date) (positions session) in
  let trades :=
    filter (λ t, (Trade.trade_date t ≤ query_date)%Z) (trades session) in
  let expected_map := expected_positions trades in
  let bank_map := bank_positions_map bank_positions in
  let discrepancies := find_discrepancies expected_map bank_map in
  mkReconciliationResponse (length bank_positions) (size expected_map)
    (length discrepancies) discrepancies.

(** ** Sample data used by the worked examples *)

Definition row1 (d : date) (acct tick : string) (q : Z) (p : Q)
    (ty : string) : RawTradeFormat1 :=
  mkRawTradeFormat1 (Some d) (Some acct) (Some tick) (Some q) (Some p)
    (Some ty) (Some (d + 2)%Z).

Arguments row1 d%_Z acct%_string tick%_string q%_Z p%_Q ty%_string.

Definition sample_rows1 : list RawTradeFormat1 :=
  [ row1 100%Z "ACC001" "AAPL" 100%Z (18550 # 100) "BUY";
    row1 100%Z "ACC001" "GOOGL" 60%Z (14280 # 100) "BUY";
    row1 100%Z "ACC001" "GOOGL" 40%Z (14280 # 100) "BUY";
    row1 100%Z "ACC003" "TSLA" 150%Z (23845 # 100) "SELL";
    row1 100%Z "ACC003" "NVDA" 80%Z (50530 # 100) "BUY" ].

Definition sample_session : Session :=
  (ingest_trade_format1 0%Z empty_session "trades_format1.csv"
     (mkCsvRead sample_rows1 None)).2.

(** ** Vocabulary of the properties and worked inputs *)

(** [c in s] for a character. *)
Fixpoint contains (c : ascii) (s : string) : bool :=
  match s with
  | EmptyString => false
  | String c' s' => bool_decide (c' = c) || contains c s'
  end.

(** What account resolution may do to a stored account: the identifier and
    the creation time stay, and so does a custodian name that is set. *)
Definition account_kept (a a' : Account.t) : Prop :=
  Account.account_id a' = Account.account_id a
  ∧ Account.created_at a' = Account.created_at a
  ∧ (opt_str_truthy (Account.custodian_name a) = true → a' = a).

Definition session_kept (s s' : Session) : Prop :=
  ∀ account_id a, accounts s !! account_id = Some a →
    ∃ a', accounts s' !! account_id = Some a' ∧ account_kept a a'.

(** Every custodian name in the table is non-empty. *)
Definition custodians_named (s : Session) : Prop :=
  ∀ account_id a c, accounts s !! account_id = Some a →
    Account.custodian_name a = Some c → str_truthy c = true.

Definition valid1 (rows : list RawTradeFormat1) : list TradeFormat1.t :=
  omap (λ row, match TradeFormat1.validate row with
               | inr v => Some v
               | inl _ => None
               end) rows.

(** The message that the handler of a CSV loop appends for a row. *)
Definition row_error (row_num : nat) (e : ValidationError) : string :=
  "Row " +:+ pretty row_num +:+ ": " +:+ str_exc e.

(** The messages of the rows of a file that fail validation, a row at
    index [i] (from 0) being numbered [first + i]. *)
Definition row_errors {Row V} (validate : Row → ValidationError + V)
    (first : nat) (rows : list Row) : list string :=
  omap id (imap (λ i row, match validate row with
                          | inl e => Some (row_error (first + i) e)
                          | inr _ => None
                          end) rows).

Definition valid2 (rows : list RawTradeFormat2) : list TradeFormat2.t :=
  omap (λ row, match TradeFormat2.validate row with
               | inr v => Some v
               | inl _ => None
               end) rows.

(** A sequence of ingestion calls on one store. *)
Record IngestCall := mkIngestCall {
  call_now : Z;
  call_file_name : string;
  call_file : File;
  call_file_format : string
}.

Definition ingest_call (session : Session) (c : IngestCall) : Session :=
  (ingest_file (call_now c) session (call_file_name c) (call_file c)
     (call_file_format c)).2.

Definition ingest_calls (calls : list IngestCall) (session : Session)
    : Session :=
  foldl ingest_call session calls.



Definition bank_call_A : IngestCall :=
  mkIngestCall 0 "bank_positions.yaml"
    (mkFile (mkCsvRead [] None) (mkCsvRead [] None)
       (inr (mkRawBankPositionFile (Some 100%Z)
               [mkRawBankPosition (Some "ACC001") (Some "AAPL") (Some 100%Z)
                  (Some (18550 # 1)) (Some "CUST_A_12345")])))
    "YAML_POSITIONS".

Definition pipe_call_B : IngestCall :=
  mkIngestCall 7 "trades_format2.txt"
    (mkFile (mkCsvRead [] None)
       (mkCsvRead [mkRawTradeFormat2 (Some 101%Z) (Some "ACC001")
                     (Some "MSFT") (Some 50%Z) (Some (21012 # 1))
                     (Some "CUSTODIAN_B")] None)
       (inl "not a YAML mapping"))
    "PIPE_FORMAT2".

(** A dict filled by a loop that, for each element, reads the entry of its
    key (or a start value) and writes the updated entry back. *)
Definition dict_step {K V T : Type} `{EqDecision K} (key : T → K) (init : V)
    (upd : V → T → V) (m : list (K * V)) (t : T) : list (K * V) :=
  dict_set (key t) (upd (default init (dict_get (key t) m)) t) m.

Definition Zsum (l : list Z) : Z := foldr Z.add 0%Z l.

Definition trade_key (t : Trade.t) : string * string :=
  (Trade.account_id t, Trade.ticker t).

(** The signed sum of the quantities of the trades of one key. *)
Definition net_shares (trades : list Trade.t) (key : string * string) : Z :=
  Zsum (Trade.quantity <$> filter (λ t, trade_key t = key) trades).

(** A bank document with a row of no shares but a positive value. *)
Definition zero_share_doc : RawBankPositionFile :=
  mkRawBankPositionFile (Some 100%Z)
    [ mkRawBankPosition (Some "ACC009") (Some "ZERO") (Some 0%Z)
        (Some (5000 # 1)) (Some "CUST_A_12345");
      mkRawBankPosition (Some "ACC009") (Some "AAPL") (Some 10%Z)
        (Some (1000 # 1)) (Some "CUST_A_12345") ].

(** The signed sum of the quantities of the trades of one ticker. *)
Definition ticker_shares (ts : list Trade.t) (ticker : string) : Z :=
  Zsum (Trade.quantity <$> filter (λ t, Trade.ticker t = ticker) ts).

(** Trades of one account where a position was bought and fully sold. *)
Definition closed_position_session : Session :=
  (ingest_trade_format1 0 empty_session "trades_format1.csv"
     (mkCsvRead
        [ row1 100 "ACC007" "AAPL" 100 (18550 # 100) "BUY";
          row1 101 "ACC007" "MSFT" 50 (42025 # 100) "BUY";
          row1 102 "ACC007" "AAPL" 100 (19000 # 100) "SELL" ] None)).2.

Definition position_key (p : Position.t) : string * string :=
  (Position.account_id p, Position.ticker p).

(** The shares of the snapshot row of a key (of the last one, should the
    store hold several for the date), 0 when there is none. *)
Definition snapshot_shares (ps : list Position.t) (key : string * string)
    : Z :=
  default 0%Z (last (Position.shares <$> filter (λ p, position_key p = key) ps)).

(** Strict order of the keys. *)
Definition key_lt (k1 k2 : string * string) : Prop :=
  key_leb k1 k2 = true ∧ k1 ≠ k2.

(** The sample trades followed by a snapshot that agrees on AAPL, has 75
    GOOGL instead of 100, lacks ACC003 and has a ticker never traded. *)
Definition recon_session : Session :=
  (ingest_bank_positions 1 sample_session "bank_positions.yaml"
     (inr (mkRawBankPositionFile (Some 100%Z)
             [ mkRawBankPosition (Some "ACC001") (Some "GOOGL") (Some 75%Z)
                 (Some (10710 # 1)) (Some "CUST_A_12345");
               mkRawBankPosition (Some "ACC001") (Some "AAPL") (Some 100%Z)
                 (Some (18550 # 1)) (Some "CUST_A_12345");
               mkRawBankPosition (Some "ACC001") (Some "TSLA") (Some 80%Z)
                 (Some (19076 # 1)) (Some "CUST_A_12345") ]))).2.

(** ** Vocabulary of the further properties *)

(** What one accepted record does to the store: the account is resolved
    with the custodian that the record carries, then the trade or the
    position is added. *)
Inductive Write :=
  | WTrade (account_id : string) (custodian : option string) (t : Trade.t)
  | WPosition (account_id : string) (custodian : option string)
      (p : Position.t).

Definition write_account (w : Write) : string :=
  match w with WTrade a _ _ => a | WPosition a _ _ => a end.

Definition write_custodian (w : Write) : option string :=
  match w with WTrade _ c _ => c | WPosition _ c _ => c end.

Definition apply_write (now : Z) (session : Session) (w : Write) : Session :=
  match w with
  | WTrade a c t => add_trade (ensure_account_exists now session a c).2 t
  | WPosition a c p =>
      add_position (ensure_account_exists now session a c).2 p
  end.

Definition format1_writes (file_name : string) (rows : list RawTradeFormat1)
    : list Write :=
  (λ v, WTrade (TradeFormat1.account_id v) None
          (format1_trade (new_report file_name "CSV_FORMAT1") v))
  <$> valid1 rows.

Definition format2_writes (file_name : string) (rows : list RawTradeFormat2)
    : list Write :=
  (λ v, WTrade (TradeFormat2.account_id v)
          (Some (TradeFormat2.source_system v))
          (format2_trade (new_report file_name "PIPE_FORMAT2") v))
  <$> valid2 rows.

(** The [Position] that [ingest_bank_positions] builds. *)
Definition stored_position (file_name : string) (report_date : date)
    (position_data : BankPosition.t) : Position.t :=
  Position.mk report_date
              (BankPosition.account_id position_data)
              (BankPosition.ticker position_data)
              (BankPosition.shares position_data)
              (BankPosition.market_value position_data)
              (Some (BankPosition.custodian_ref position_data))
              (Some file_name).

Definition bank_writes (file_name : string) (f : BankPositionFile.t)
    : list Write :=
  (λ p, WPosition (BankPosition.account_id p)
          (extract_custodian_name (Some (BankPosition.custodian_ref p)))
          (stored_position file_name (BankPositionFile.report_date f) p))
  <$> BankPositionFile.positions f.

(** The account has no custodian name yet (it may not exist). *)
Definition custodian_unset (s : Session) (account_id : string) : Prop :=
  ∀ a, accounts s !! account_id = Some a →
    opt_str_truthy (Account.custodian_name a) = false.

(** The store is consistent: an account is stored under its identifier and
    every trade and every position refers to a stored account. *)
Definition store_consistent (s : Session) : Prop :=
  (∀ k a, accounts s !! k = Some a → Account.account_id a = k)
  ∧ (∀ t, t ∈ trades s → is_Some (accounts s !! Trade.account_id t))
  ∧ (∀ p, p ∈ positions s → is_Some (accounts s !! Position.account_id p)).

(** The record of a write refers to the account that the write resolves. *)
Definition write_ok (w : Write) : Prop :=
  match w with
  | WTrade a _ t => Trade.account_id t = a
  | WPosition a _ p => Position.account_id p = a
  end.

Definition write_trade (w : Write) : option Trade.t :=
  match w with WTrade _ _ t => Some t | WPosition _ _ _ => None end.

Definition write_position (w : Write) : option Position.t :=
  match w with WTrade _ _ _ => None | WPosition _ _ p => Some p end.

(** A Format B file of two accepted rows for ACC001, from two custodians. *)
Definition two_custodian_rows : list RawTradeFormat2 :=
  [ mkRawTradeFormat2 (Some 100%Z) (Some "ACC001") (Some "AAPL") (Some 100%Z)
      (Some (18550 # 1)) (Some "CUSTODIAN_B");
    mkRawTradeFormat2 (Some 100%Z) (Some "ACC001") (Some "MSFT") (Some (-50)%Z)
      (Some (21012 # 1)) (Some "CUSTODIAN_A") ].

(** A bank document whose first reference has one segment only. *)
Definition bare_ref_doc : RawBankPositionFile :=
  mkRawBankPositionFile (Some 100%Z)
    [ mkRawBankPosition (Some "ACC001") (Some "AAPL") (Some 100%Z)
        (Some (18550 # 1)) (Some "UNKNOWN");
      mkRawBankPosition (Some "ACC001") (Some "MSFT") (Some 50%Z)
        (Some (21012 # 1)) (Some "CUST_C_99999");
      mkRawBankPosition (Some "ACC001") (Some "NVDA") (Some 10%Z)
        (Some (5053 # 1)) (Some "CUST_A_12345") ].

Arguments TradeFormat2.mk report_date%_Z account_id%_string ticker%_string
  shares%_Z market_value%_Q source_system%_string.
Arguments BankPosition.mk account_id%_string ticker%_string shares%_Z
  market_value%_Q custodian_ref%_string.
Arguments BankPositionFile.mk report_date%_Z positions%_list.

Definition violation_key (v : Violation.t) : string * string :=
  (Violation.account_id v, Violation.ticker v).

(** An account with one long and one short position of like size. *)
Definition long_short_doc : RawBankPositionFile :=
  mkRawBankPositionFile (Some 100%Z)
    [ mkRawBankPosition (Some "ACC003") (Some "NVDA") (Some 80%Z)
        (Some (40424 # 1)) (Some "CUST_C_99999");
      mkRawBankPosition (Some "ACC003") (Some "TSLA") (Some (-150)%Z)
        (Some (-3576750 # 100)) (Some "CUST_C_99999") ].

Definition long_short_session : Session :=
  (ingest_bank_positions 0 empty_session "bank_positions.yaml"
     (inr long_short_doc)).2.


(** The account of a write exists and already has a custodian name if the
    write carries one: resolving it changes nothing. *)
Definition settled (s : Session) (w : Write) : Prop :=
  ∃ acc, accounts s !! write_account w = Some acc
    ∧ (opt_str_truthy (write_custodian w) = true →
       opt_str_truthy (Account.custodian_name acc) = true).

(** * Properties *)

(** ** Splitting a custodian reference *)

Lemma split_not_nil sep s : split sep s ≠ [].
Proof. destruct s as [|c s]; simpl; [done|]. case_decide; [done|]. by destruct (split sep s). Qed.

Lemma split_no_sep sep s : contains sep s = false → split sep s = [s].
Proof.
  induction s as [|c s IH]; simpl; [done|].
  intros [Hc Hs]%orb_false_elim. apply bool_decide_eq_false in Hc.
  rewrite decide_False by done. by rewrite IH.
Qed.

Lemma split_at_sep sep a b :
  contains sep a = false →
  split sep (a +:+ String sep b) = a :: split sep b.
Proof.
  induction a as [|c a IH]; simpl.
  - intros _. by rewrite decide_True.
  - intros [Hc Hs]%orb_false_elim. apply bool_decide_eq_false in Hc.
    rewrite decide_False by done. by rewrite IH.
Qed.

Lemma str_truthy_app_sep a sep b : str_truthy (a +:+ String sep b) = true.
Proof. by destruct a. Qed.

Lemma extract_second_segment a b tail :
  contains "_" a = false →
  split "_" b = tail →
  extract_custodian_name (Some (a +:+ String "_" b))
  = Some ("CUSTODIAN_" +:+ default EmptyString (head tail)).
Proof.
  intros Ha Hb. unfold extract_custodian_name, opt_str_truthy, default, id.
  rewrite (str_truthy_app_sep a "_" b). simpl negb. cbv iota.
  rewrite split_at_sep by done. rewrite Hb.
  destruct tail as [|t tail]; [by destruct (split_not_nil "_" b)|].
  rewrite decide_True by (simpl; lia). done.
Qed.

Lemma extract_no_sep ref :
  contains "_" ref = false → extract_custodian_name (Some ref) = None.
Proof.
  intros Href. unfold extract_custodian_name. simpl.
  destruct (str_truthy ref); simpl; [|done].
  rewrite split_no_sep by done. done.
Qed.

(** ** Validation of a bank document *)

Lemma bank_position_needs_ref row :
  raw_custodian_ref row = None ∨ raw_custodian_ref row = Some EmptyString →
  ∃ e, BankPosition.validate row = inl e.
Proof.
  intros Href. unfold BankPosition.validate.
  assert (∃ e, constrain "custodian_ref" "length must be at least 1"
                 (min_length 1)
                 (required "custodian_ref" (raw_custodian_ref row)) = inl e)
    as [e ->].
  { destruct Href as [-> | ->]; simpl; eauto. }
  repeat case_match; eauto.
Qed.

Lemma validate_positions_bad rows row :
  row ∈ rows →
  (∃ e, BankPosition.validate row = inl e) →
  ∃ e, BankPositionFile.validate_positions rows = inl e.
Proof.
  intros Hin [e He].
  induction Hin as [row rows | row row' rows Hin IH];
    cbn [BankPositionFile.validate_positions].
  - rewrite He. simpl. eauto.
  - destruct (IH He) as [e' He']. rewrite He'.
    destruct (BankPosition.validate row'); simpl; eauto.
Qed.

Lemma bank_file_bad_position data row :
  row ∈ raw_positions data →
  (∃ e, BankPosition.validate row = inl e) →
  ∃ e, BankPositionFile.validate data = inl e.
Proof.
  intros Hin Hbad. unfold BankPositionFile.validate.
  destruct (validate_positions_bad _ _ Hin Hbad) as [e ->].
  destruct (raw_report_date data); simpl; eauto.
Qed.

(** C8: the custodian name is ["CUSTODIAN_"] followed by the segment that
    follows the first underscore, whether or not more segments follow; a
    reference without underscore, the empty reference and the absent
    reference give no name; and a bank document holding a position with an
    empty or absent reference still yields a report (with one file-level
    error, the store untouched). *)
Theorem extract_custodian_name_spec (first second : string) :
  contains "_" first = false →
  contains "_" second = false →
  extract_custodian_name (Some (first +:+ "_" +:+ second))
    = Some ("CUSTODIAN_" +:+ second)
  ∧ (∀ more, extract_custodian_name
               (Some (first +:+ "_" +:+ second +:+ "_" +:+ more))
             = Some ("CUSTODIAN_" +:+ second))
  ∧ extract_custodian_name (Some first) = None
  ∧ extract_custodian_name (Some EmptyString) = None
  ∧ extract_custodian_name None = None
  ∧ (∀ now session file_name data row,
       row ∈ raw_positions data →
       raw_custodian_ref row = None ∨ raw_custodian_ref row = Some EmptyString →
       ∃ msg,
         ingest_bank_positions now session file_name (inr data)
         = (append_error msg (new_report file_name "YAML_POSITIONS"),
            session)).
Proof.
  intros Hfirst Hsecond. split_and!.
  - exact (extract_second_segment first second [second] Hfirst
             (split_no_sep _ _ Hsecond)).
  - intros more.
    exact (extract_second_segment first (second +:+ String "_" more)
             (second :: split "_" more) Hfirst
             (split_at_sep _ _ _ Hsecond)).
  - by apply extract_no_sep.
  - done.
  - done.
  - intros now session fname data row Hin Href.
    destruct (bank_file_bad_position data row Hin
                (bank_position_needs_ref row Href)) as [e He].
    unfold ingest_bank_positions. rewrite He. eauto.
Qed.

Lemma extract_custodian_name_spec_witness :
  contains "_" "CUST" = false
  ∧ contains "_" "A" = false
  ∧ extract_custodian_name (Some "CUST_A_12345") = Some "CUSTODIAN_A".
Proof.
  split; [reflexivity|]. split; [reflexivity|].
  apply (proj1 (proj2 (extract_custodian_name_spec "CUST" "A"
                         eq_refl eq_refl)) "12345").
Defined.

(** ** Account resolution *)

Lemma ensure_account_exists_found now session account_id custodian :
  is_Some (query_account
             (ensure_account_exists now session account_id custodian).2
             account_id).
Proof.
  unfold ensure_account_exists, query_account.
  destruct (accounts session !! account_id) as [account|] eqn:Hq; simpl.
  - destruct (opt_str_truthy custodian
              && negb (opt_str_truthy (Account.custodian_name account)));
      simpl; [by rewrite lookup_insert_eq | by rewrite Hq].
  - by rewrite lookup_insert_eq.
Qed.

Lemma ensure_account_exists_trades now session account_id custodian :
  trades (ensure_account_exists now session account_id custodian).2
  = trades session.
Proof. unfold ensure_account_exists. by repeat case_match. Qed.

Lemma ensure_account_exists_positions now session account_id custodian :
  positions (ensure_account_exists now session account_id custodian).2
  = positions session.
Proof. unfold ensure_account_exists. by repeat case_match. Qed.

Lemma account_kept_refl a : account_kept a a.
Proof. by repeat split. Qed.

Lemma account_kept_trans a b c :
  account_kept a b → account_kept b c → account_kept a c.
Proof.
  intros (Hi1 & Hc1 & Hk1) (Hi2 & Hc2 & Hk2). repeat split; [congruence..|].
  intros Ha. specialize (Hk1 Ha). subst b. auto.
Qed.

Lemma session_kept_refl s : session_kept s s.
Proof. intros id a Ha. eauto using account_kept_refl. Qed.

Lemma session_kept_trans s1 s2 s3 :
  session_kept s1 s2 → session_kept s2 s3 → session_kept s1 s3.
Proof.
  intros H12 H23 id a Ha. destruct (H12 _ _ Ha) as (b & Hb & Hab).
  destruct (H23 _ _ Hb) as (c & Hc & Hbc). eauto using account_kept_trans.
Qed.

Lemma ensure_account_exists_kept now session account_id custodian :
  session_kept session
    (ensure_account_exists now session account_id custodian).2.
Proof.
  intros id a Ha. unfold ensure_account_exists, query_account.
  destruct (accounts session !! account_id) as [account|] eqn:Hq; simpl.
  - destruct (opt_str_truthy custodian) eqn:Hc; simpl;
      [|eauto using account_kept_refl].
    destruct (opt_str_truthy (Account.custodian_name account)) eqn:Hn; simpl;
      [eauto using account_kept_refl|].
    destruct (decide (account_id = id)) as [->|Hne].
    + rewrite lookup_insert_eq. eexists; split; [done|].
      assert (a = account) as -> by congruence.
      repeat split. intros Hset. congruence.
    + rewrite lookup_insert_ne by done. eauto using account_kept_refl.
  - destruct (decide (account_id = id)) as [->|Hne]; [congruence|].
    rewrite lookup_insert_ne by done. eauto using account_kept_refl.
Qed.

Lemma ensure_account_exists_named now session account_id custodian :
  (∀ c, custodian = Some c → str_truthy c = true) →
  custodians_named session →
  custodians_named (ensure_account_exists now session account_id custodian).2.
Proof.
  intros Hc Hs id a c Ha Hname. revert Ha.
  unfold ensure_account_exists, query_account.
  destruct (accounts session !! account_id) as [account|] eqn:Hq; simpl.
  - destruct (opt_str_truthy custodian
              && negb (opt_str_truthy (Account.custodian_name account)));
      simpl; [|by eauto].
    destruct (decide (account_id = id)) as [->|Hne].
    + rewrite lookup_insert_eq. intros [= <-]. simpl in Hname. auto.
    + rewrite lookup_insert_ne by done. eauto.
  - destruct (decide (account_id = id)) as [->|Hne].
    + rewrite lookup_insert_eq. intros [= <-]. simpl in Hname. auto.
    + rewrite lookup_insert_ne by done. eauto.
Qed.

(** ** The report and the store along the loops *)

Lemma row_errors_cons {Row V} (validate : Row → ValidationError + V)
    first row rows :
  row_errors validate first (row :: rows)
  = match validate row with
    | inl e => [row_error first e]
    | inr _ => []
    end ++ row_errors validate (S first) rows.
Proof.
  unfold row_errors. rewrite imap_cons. cbn [omap list_omap].
  rewrite Nat.add_0_r.
  assert (imap ((λ i row0, match validate row0 with
                           | inl e => Some (row_error (first + i) e)
                           | inr _ => None
                           end) ∘ S) rows
          = imap (λ i row0, match validate row0 with
                            | inl e => Some (row_error (S first + i) e)
                            | inr _ => None
                            end) rows) as ->.
  { apply imap_ext. intros i x _. simpl. by rewrite Nat.add_succ_r. }
  by destruct (validate row).
Qed.


Lemma format1_row_valid now n row st v :
  TradeFormat1.validate row = inr v →
  format1_row now n row st
  = (incr_valid (incr_processed st.1),
     add_trade (ensure_account_exists now st.2
                  (TradeFormat1.account_id v) None).2
       (format1_trade st.1 v)).
Proof.
  intros Hv. unfold format1_row. rewrite Hv.
  destruct (ensure_account_exists_found now st.2
              (TradeFormat1.account_id v) None) as [a ->].
  done.
Qed.

Lemma format1_row_invalid now n row st e :
  TradeFormat1.validate row = inl e →
  format1_row now n row st
  = (append_error (row_error n e) (incr_failed (incr_processed st.1)), st.2).
Proof. intros He. unfold format1_row. by rewrite He. Qed.

Lemma format1_loop_spec now rows : ∀ n st,
  let st' := format1_loop now n rows st in
  file_name st'.1 = file_name st.1
  ∧ file_format st'.1 = file_format st.1
  ∧ records_processed st'.1 = records_processed st.1 + length rows
  ∧ records_valid st'.1 = records_valid st.1 + length (valid1 rows)
  ∧ records_failed st'.1
    = records_failed st.1
      + length (filter (λ row, rejected (TradeFormat1.validate row)) rows)
  ∧ errors st'.1 = errors st.1 ++ row_errors TradeFormat1.validate n rows
  ∧ new_accounts_created st'.1 = new_accounts_created st.1
  ∧ trades st'.2 = trades st.2 ++ map (format1_trade st.1) (valid1 rows)
  ∧ positions st'.2 = positions st.2
  ∧ session_kept st.2 st'.2
  ∧ (custodians_named st.2 → custodians_named st'.2).
Proof.
  induction rows as [|row rows IH]; intros n st; cbn [format1_loop].
  { simpl. rewrite !Nat.add_0_r, !app_nil_r.
    split_and!; auto using session_kept_refl. }
  unfold valid1 in *. cbn [omap list_omap length].
  rewrite row_errors_cons, filter_cons.
  destruct (TradeFormat1.validate row) as [e|v] eqn:Hrow; cbn [rejected].
  - rewrite (format1_row_invalid _ _ _ _ e Hrow).
    destruct (IH (S n) (append_error (row_error n e)
                          (incr_failed (incr_processed st.1)), st.2))
      as (H1 & H2 & H3 & H4 & H5 & H6 & H7 & H8 & H9 & H10 & H11).
    cbn [fst snd] in *.
    rewrite H1, H2, H3, H4, H5, H6, H7, H8, H9.
    rewrite decide_True by done. simpl.
    split_and!; auto; try lia. by rewrite <- app_assoc.
  - rewrite (format1_row_valid _ _ _ _ v Hrow).
    destruct (IH (S n) (incr_valid (incr_processed st.1),
                        add_trade
                          (ensure_account_exists now st.2
                             (TradeFormat1.account_id v) None).2
                          (format1_trade st.1 v)))
      as (H1 & H2 & H3 & H4 & H5 & H6 & H7 & H8 & H9 & H10 & H11).
    cbn [fst snd] in *.
    rewrite H1, H2, H3, H4, H5, H6, H7, H8, H9.
    rewrite decide_False by (simpl; tauto). simpl.
    rewrite ensure_account_exists_trades, ensure_account_exists_positions.
    split_and!; auto; try lia.
    + rewrite <- app_assoc. reflexivity.
    + eapply session_kept_trans; [|exact H10].
      apply ensure_account_exists_kept.
    + intros Hn. apply H11. by apply ensure_account_exists_named.
Qed.

Lemma format2_source_system_named row v :
  TradeFormat2.validate row = inr v →
  str_truthy (TradeFormat2.source_system v) = true.
Proof.
  unfold TradeFormat2.validate.
  destruct (constrain "SOURCE_SYSTEM" "length must be at least 1"
              (min_length 1)
              (required "SOURCE_SYSTEM" (raw_SOURCE_SYSTEM row)))
    as [e|c] eqn:Hc.
  { intros Hv. repeat case_match; discriminate. }
  assert (str_truthy c = true).
  { unfold constrain, required in Hc.
    destruct (raw_SOURCE_SYSTEM row) as [s|]; [|done].
    destruct (min_length 1 s) eqn:Hlen; [|done].
    injection Hc as <-. by destruct s. }
  intros Hv. repeat case_match; try discriminate. injection Hv as <-. done.
Qed.

Lemma extract_custodian_name_named ref c :
  extract_custodian_name ref = Some c → str_truthy c = true.
Proof.
  unfold extract_custodian_name.
  destruct (negb (opt_str_truthy ref)); [done|].
  case_decide; [|done]. by intros [= <-].
Qed.

Lemma format2_row_valid now n row st v :
  TradeFormat2.validate row = inr v →
  format2_row now n row st
  = (incr_valid (incr_processed st.1.1),
     add_trade (ensure_account_exists now st.1.2
                  (TradeFormat2.account_id v)
                  (Some (TradeFormat2.source_system v))).2
       (format2_trade st.1.1 v),
     {[TradeFormat2.source_system v]} ∪ st.2).
Proof.
  intros Hv. unfold format2_row. rewrite Hv.
  destruct (ensure_account_exists_found now st.1.2
              (TradeFormat2.account_id v)
              (Some (TradeFormat2.source_system v))) as [a ->].
  done.
Qed.

Lemma format2_row_invalid now n row st e :
  TradeFormat2.validate row = inl e →
  format2_row now n row st
  = (append_error (row_error n e) (incr_failed (incr_processed st.1.1)),
     st.1.2, st.2).
Proof. intros He. unfold format2_row. by rewrite He. Qed.

Lemma format2_loop_spec now rows : ∀ n st,
  let st' := format2_loop now n rows st in
  file_name st'.1.1 = file_name st.1.1
  ∧ file_format st'.1.1 = file_format st.1.1
  ∧ records_processed st'.1.1 = records_processed st.1.1 + length rows
  ∧ records_valid st'.1.1 = records_valid st.1.1 + length (valid2 rows)
  ∧ records_failed st'.1.1
    = records_failed st.1.1
      + length (filter (λ row, rejected (TradeFormat2.validate row)) rows)
  ∧ errors st'.1.1 = errors st.1.1 ++ row_errors TradeFormat2.validate n rows
  ∧ new_accounts_created st'.1.1 = new_accounts_created st.1.1
  ∧ trades st'.1.2 = trades st.1.2 ++ map (format2_trade st.1.1) (valid2 rows)
  ∧ positions st'.1.2 = positions st.1.2
  ∧ session_kept st.1.2 st'.1.2
  ∧ (custodians_named st.1.2 → custodians_named st'.1.2).
Proof.
  induction rows as [|row rows IH]; intros n st; cbn [format2_loop].
  { simpl. rewrite !Nat.add_0_r, !app_nil_r.
    split_and!; auto using session_kept_refl. }
  unfold valid2 in *. cbn [omap list_omap length].
  rewrite row_errors_cons, filter_cons.
  destruct (TradeFormat2.validate row) as [e|v] eqn:Hrow; cbn [rejected].
  - rewrite (format2_row_invalid _ _ _ _ e Hrow).
    destruct (IH (S n) (append_error (row_error n e)
                          (incr_failed (incr_processed st.1.1)),
                        st.1.2, st.2))
      as (H1 & H2 & H3 & H4 & H5 & H6 & H7 & H8 & H9 & H10 & H11).
    cbn [fst snd] in *.
    rewrite H1, H2, H3, H4, H5, H6, H7, H8, H9.
    rewrite decide_True by done. simpl.
    split_and!; auto; try lia. by rewrite <- app_assoc.
  - rewrite (format2_row_valid _ _ _ _ v Hrow).
    destruct (IH (S n) (incr_valid (incr_processed st.1.1),
                        add_trade
                          (ensure_account_exists now st.1.2
                             (TradeFormat2.account_id v)
                             (Some (TradeFormat2.source_system v))).2
                          (format2_trade st.1.1 v),
                        {[TradeFormat2.source_system v]} ∪ st.2))
      as (H1 & H2 & H3 & H4 & H5 & H6 & H7 & H8 & H9 & H10 & H11).
    cbn [fst snd] in *.
    rewrite H1, H2, H3, H4, H5, H6, H7, H8, H9.
    rewrite decide_False by (simpl; tauto). simpl.
    rewrite ensure_account_exists_trades, ensure_account_exists_positions.
    split_and!; auto; try lia.
    + rewrite <- app_assoc. reflexivity.
    + eapply session_kept_trans; [|exact H10].
      apply ensure_account_exists_kept.
    + intros Hn. apply H11. apply ensure_account_exists_named; [|done].
      intros c [= <-]. by eapply format2_source_system_named.
Qed.

Lemma bank_row_eq now d p st :
  bank_row now d p st
  = (incr_valid (incr_processed st.1.1),
     add_position
       (ensure_account_exists now st.1.2 (BankPosition.account_id p)
          (extract_custodian_name (Some (BankPosition.custodian_ref p)))).2
       (Position.mk d (BankPosition.account_id p) (BankPosition.ticker p)
          (BankPosition.shares p) (BankPosition.market_value p)
          (Some (BankPosition.custodian_ref p)) (Some (file_name st.1.1))),
     (bank_row now d p st).2).
Proof.
  unfold bank_row.
  destruct (ensure_account_exists_found now st.1.2
              (BankPosition.account_id p)
              (extract_custodian_name (Some (BankPosition.custodian_ref p))))
    as [a ->].
  done.
Qed.

Lemma bank_loop_spec now d ps : ∀ st,
  let st' := foldl (λ st p, bank_row now d p st) st ps in
  file_name st'.1.1 = file_name st.1.1
  ∧ records_processed st'.1.1 = records_processed st.1.1 + length ps
  ∧ records_valid st'.1.1 = records_valid st.1.1 + length ps
  ∧ records_failed st'.1.1 = records_failed st.1.1
  ∧ errors st'.1.1 = errors st.1.1
  ∧ new_accounts_created st'.1.1 = new_accounts_created st.1.1
  ∧ trades st'.1.2 = trades st.1.2
  ∧ length (positions st'.1.2) = length (positions st.1.2) + length ps
  ∧ session_kept st.1.2 st'.1.2
  ∧ (custodians_named st.1.2 → custodians_named st'.1.2).
Proof.
  induction ps as [|p ps IH]; intros st; cbn [foldl].
  { simpl. rewrite !Nat.add_0_r. split_and!; auto using session_kept_refl. }
  destruct (IH (bank_row now d p st))
    as (H1 & H2 & H3 & H4 & H5 & H6 & H7 & H8 & H9 & H10).
  pose proof (bank_row_eq now d p st) as E.
  destruct (bank_row now d p st) as [[r s] cs]. cbn [fst snd] in *.
  injection E as -> ->.
  rewrite H1, H2, H3, H4, H5, H6, H7, H8. simpl.
  rewrite ensure_account_exists_trades, length_app,
    ensure_account_exists_positions. simpl.
  split_and!; auto; try lia.
  - eapply session_kept_trans; [|exact H9]. apply ensure_account_exists_kept.
  - intros Hn. apply H10. apply ensure_account_exists_named; [|done].
    intros c0. apply extract_custodian_name_named.
Qed.

(** ** The ingestion procedures *)

Lemma valid1_rejected_length rows :
  length (valid1 rows)
  + length (filter (λ row, rejected (TradeFormat1.validate row)) rows)
  = length rows.
Proof.
  induction rows as [|row rows IH]; [done|].
  unfold valid1 in *. cbn [omap list_omap]. rewrite filter_cons.
  destruct (TradeFormat1.validate row); simpl; lia.
Qed.

Lemma valid2_rejected_length rows :
  length (valid2 rows)
  + length (filter (λ row, rejected (TradeFormat2.validate row)) rows)
  = length rows.
Proof.
  induction rows as [|row rows IH]; [done|].
  unfold valid2 in *. cbn [omap list_omap]. rewrite filter_cons.
  destruct (TradeFormat2.validate row); simpl; lia.
Qed.

(** The report and the store after [ingest_trade_format1], whether or not
    reading the file fails after its rows. *)
Lemma ingest_trade_format1_spec now session file_name rows failure :
  let out := ingest_trade_format1 now session file_name
               (mkCsvRead rows failure) in
  records_processed out.1 = length rows
  ∧ records_valid out.1 = length (valid1 rows)
  ∧ records_failed out.1
    = length (filter (λ row, rejected (TradeFormat1.validate row)) rows)
  ∧ new_accounts_created out.1 = 0
  ∧ errors out.1
    = row_errors TradeFormat1.validate 2 rows
      ++ match failure with
         | Some e => ["File processing error: " +:+ e]
         | None => []
         end
  ∧ match failure with
    | Some _ => out.2 = session
    | None =>
        trades out.2
        = trades session
          ++ map (format1_trade (new_report file_name "CSV_FORMAT1"))
               (valid1 rows)
        ∧ positions out.2 = positions session
    end
  ∧ session_kept session out.2
  ∧ (custodians_named session → custodians_named out.2).
Proof.
  unfold ingest_trade_format1. cbn [csv_rows csv_failure].
  destruct (format1_loop_spec now rows 2
              (new_report file_name "CSV_FORMAT1", session))
    as (H1 & H2 & H3 & H4 & H5 & H6 & H7 & H8 & H9 & H10 & H11).
  cbn [fst snd] in *.
  destruct failure as [e|]; cbn [fst snd append_error records_processed
    records_valid records_failed new_accounts_created errors].
  - rewrite H3, H4, H5, H6, H7. simpl.
    split_and!; auto using session_kept_refl.
  - rewrite H3, H4, H5, H6, H7, H8, H9. simpl. rewrite app_nil_r.
    split_and!; auto.
Qed.

Lemma ingest_trade_format2_spec now session file_name rows failure :
  let out := ingest_trade_format2 now session file_name
               (mkCsvRead rows failure) in
  records_processed out.1 = length rows
  ∧ records_valid out.1 = length (valid2 rows)
  ∧ records_failed out.1
    = length (filter (λ row, rejected (TradeFormat2.validate row)) rows)
  ∧ new_accounts_created out.1 = 0
  ∧ errors out.1
    = row_errors TradeFormat2.validate 2 rows
      ++ match failure with
         | Some e => ["File processing error: " +:+ e]
         | None => []
         end
  ∧ match failure with
    | Some _ => out.2 = session
    | None =>
        trades out.2
        = trades session
          ++ map (format2_trade (new_report file_name "PIPE_FORMAT2"))
               (valid2 rows)
        ∧ positions out.2 = positions session
    end
  ∧ session_kept session out.2
  ∧ (custodians_named session → custodians_named out.2).
Proof.
  unfold ingest_trade_format2. cbn [csv_rows csv_failure].
  destruct (format2_loop_spec now rows 2
              (new_report file_name "PIPE_FORMAT2", session, ∅))
    as (H1 & H2 & H3 & H4 & H5 & H6 & H7 & H8 & H9 & H10 & H11).
  cbn [fst snd] in *.
  destruct failure as [e|]; cbn [fst snd append_error set_custodians
    records_processed records_valid records_failed new_accounts_created
    errors].
  - rewrite H3, H4, H5, H6, H7. simpl.
    split_and!; auto using session_kept_refl.
  - rewrite H3, H4, H5, H6, H7, H8, H9. simpl. rewrite app_nil_r.
    split_and!; auto.
Qed.

(** [ingest_bank_positions]: a document that does not validate as a whole
    is a file-level error; otherwise every position is processed and
    valid. *)
Lemma ingest_bank_positions_spec now session file_name file :
  let out := ingest_bank_positions now session file_name file in
  records_failed out.1 = 0
  ∧ records_processed out.1 = records_valid out.1
  ∧ new_accounts_created out.1 = 0
  ∧ trades out.2 = trades session
  ∧ session_kept session out.2
  ∧ (custodians_named session → custodians_named out.2)
  ∧ match file with
    | inl e =>
        out = (append_error ("File processing error: " +:+ e)
                 (new_report file_name "YAML_POSITIONS"), session)
    | inr data =>
        match BankPositionFile.validate data with
        | inl e =>
            out = (append_error ("File processing error: " +:+ str_exc e)
                     (new_report file_name "YAML_POSITIONS"), session)
        | inr validated_file =>
            records_processed out.1
            = length (BankPositionFile.positions validated_file)
            ∧ errors out.1 = []
            ∧ length (positions out.2)
              = length (positions session)
                + length (BankPositionFile.positions validated_file)
        end
    end.
Proof.
  unfold ingest_bank_positions.
  destruct file as [e|data]; [by split_and!; auto using session_kept_refl|].
  destruct (BankPositionFile.validate data) as [e|validated_file];
    [by split_and!; auto using session_kept_refl|].
  destruct (bank_loop_spec now (BankPositionFile.report_date validated_file)
              (BankPositionFile.positions validated_file)
              (new_report file_name "YAML_POSITIONS", session, ∅))
    as (H1 & H2 & H3 & H4 & H5 & H6 & H7 & H8 & H9 & H10).
  cbn [fst snd set_custodians records_processed records_valid records_failed
       new_accounts_created errors] in *.
  rewrite H2, H3, H4, H5, H6, H7, H8. simpl. split_and!; auto.
Qed.

(** The counter [new_accounts_created] is read after the account has been
    put in the session, so no call ever raises it. *)
Lemma ingest_file_new_accounts_created now session file_name file file_format :
  new_accounts_created
    (ingest_file now session file_name file file_format).1 = 0.
Proof.
  unfold ingest_file. repeat case_decide.
  - destruct (csv_view file) as [rows failure].
    apply (ingest_trade_format1_spec now session file_name rows failure).
  - destruct (pipe_view file) as [rows failure].
    apply (ingest_trade_format2_spec now session file_name rows failure).
  - apply (ingest_bank_positions_spec now session file_name (yaml_view file)).
  - done.
Qed.

Lemma ingest_file_kept now session file_name file file_format :
  let out := ingest_file now session file_name file file_format in
  session_kept session out.2
  ∧ (custodians_named session → custodians_named out.2).
Proof.
  unfold ingest_file. repeat case_decide.
  - destruct (csv_view file) as [rows failure].
    apply (ingest_trade_format1_spec now session file_name rows failure).
  - destruct (pipe_view file) as [rows failure].
    apply (ingest_trade_format2_spec now session file_name rows failure).
  - destruct (ingest_bank_positions_spec now session file_name
                (yaml_view file)) as (_ & _ & _ & _ & Hk & Hn & _).
    auto.
  - simpl. auto using session_kept_refl.
Qed.



Lemma ingest_calls_kept calls : ∀ session,
  session_kept session (ingest_calls calls session)
  ∧ (custodians_named session → custodians_named (ingest_calls calls session)).
Proof.
  induction calls as [|c calls IH]; intros session; simpl.
  { auto using session_kept_refl. }
  destruct (IH (ingest_call session c)) as [Hk Hn].
  destruct (ingest_file_kept (call_now c) session (call_file_name c)
              (call_file c) (call_file_format c)) as [Hk1 Hn1].
  split; [by eapply session_kept_trans|auto].
Qed.

Lemma custodians_named_empty : custodians_named empty_session.
Proof. intros id a c Ha. simpl in Ha. by rewrite lookup_empty in Ha. Qed.

(** ** Claims about ingestion *)

(** C10: in the report of every ingestion call the processed records are
    the valid ones plus the failed ones.  When reading a CSV or pipe file
    fails after some rows, the rows read so far are all counted, the failed
    count is the number of rejected rows and the file-level message only
    goes to the error list; a bank file that cannot be loaded counts
    nothing. *)
Theorem report_counts_balanced now session file_name :
  (∀ file file_format,
     let report := (ingest_file now session file_name file file_format).1 in
     records_processed report = records_valid report + records_failed report)
  ∧ (∀ rows e,
       let report := (ingest_trade_format1 now session file_name
                        (mkCsvRead rows (Some e))).1 in
       records_processed report = length rows
       ∧ records_failed report
         = length (filter (λ row, rejected (TradeFormat1.validate row)) rows)
       ∧ errors report
         = row_errors TradeFormat1.validate 2 rows
           ++ ["File processing error: " +:+ e])
  ∧ (∀ rows e,
       let report := (ingest_trade_format2 now session file_name
                        (mkCsvRead rows (Some e))).1 in
       records_processed report = length rows
       ∧ records_failed report
         = length (filter (λ row, rejected (TradeFormat2.validate row)) rows)
       ∧ errors report
         = row_errors TradeFormat2.validate 2 rows
           ++ ["File processing error: " +:+ e])
  ∧ (∀ e,
       let report := (ingest_bank_positions now session file_name (inl e)).1 in
       records_processed report = 0 ∧ records_failed report = 0
       ∧ errors report = ["File processing error: " +:+ e]).
Proof.
  split_and!.
  - intros file file_format. unfold ingest_file.
    destruct (decide (file_format = "CSV_FORMAT1")) as [_|_];
      [|destruct (decide (file_format = "PIPE_FORMAT2")) as [_|_];
        [|destruct (decide (file_format = "YAML_POSITIONS")) as [_|_]]].
    + destruct (csv_view file) as [rows failure].
      destruct (ingest_trade_format1_spec now session file_name rows failure)
        as (H1 & H2 & H3 & _).
      rewrite H1, H2, H3. symmetry. apply valid1_rejected_length.
    + destruct (pipe_view file) as [rows failure].
      destruct (ingest_trade_format2_spec now session file_name rows failure)
        as (H1 & H2 & H3 & _).
      rewrite H1, H2, H3. symmetry. apply valid2_rejected_length.
    + destruct (ingest_bank_positions_spec now session file_name
                  (yaml_view file)) as (H1 & H2 & _).
      rewrite H1, H2. lia.
    + done.
  - intros rows e.
    destruct (ingest_trade_format1_spec now session file_name rows (Some e))
      as (H1 & H2 & H3 & H4 & H5 & _). auto.
  - intros rows e.
    destruct (ingest_trade_format2_spec now session file_name rows (Some e))
      as (H1 & H2 & H3 & H4 & H5 & _). auto.
  - done.
Qed.

(** C3, on a store with no account: one valid Format A row for account
    ACC001 is accepted and the account is created, but the report says
    that no account was created.  The same holds for the two other
    formats. *)
Theorem new_account_not_counted :
  let out1 := ingest_trade_format1 0%Z empty_session "trades_format1.csv"
                (mkCsvRead [row1 100 "ACC001" "AAPL" 100 (18550 # 100) "BUY"]
                   None) in
  let out2 := ingest_trade_format2 0%Z empty_session "trades_format2.txt"
                (mkCsvRead
                   [mkRawTradeFormat2 (Some 100%Z) (Some "ACC001")
                      (Some "AAPL") (Some 100%Z) (Some (18550 # 1))
                      (Some "CUSTODIAN_A")] None) in
  let out3 := ingest_bank_positions 0%Z empty_session "bank_positions.yaml"
                (inr (mkRawBankPositionFile (Some 100%Z)
                        [mkRawBankPosition (Some "ACC001") (Some "AAPL")
                           (Some 100%Z) (Some (18550 # 1))
                           (Some "CUST_A_12345")])) in
  query_account empty_session "ACC001" = None
  ∧ (records_valid out1.1 = 1
     ∧ query_account out1.2 "ACC001" = Some (Account.mk "ACC001" None 0%Z)
     ∧ new_accounts_created out1.1 = 0)
  ∧ (records_valid out2.1 = 1
     ∧ query_account out2.2 "ACC001"
       = Some (Account.mk "ACC001" (Some "CUSTODIAN_A") 0%Z)
     ∧ new_accounts_created out2.1 = 0)
  ∧ (records_valid out3.1 = 1
     ∧ query_account out3.2 "ACC001"
       = Some (Account.mk "ACC001" (Some "CUSTODIAN_A") 0%Z)
     ∧ new_accounts_created out3.1 = 0).
Proof. vm_compute. split_and!; reflexivity. Qed.






(** C9: on a store built by ingestion calls from the empty store, further
    ingestion calls keep every stored account: its identifier and creation
    time stay, and a custodian name that is set stays as it is. *)
Theorem custodian_name_never_overwritten (before after : list IngestCall)
    (account_id : string) (account : Account.t) :
  let session := ingest_calls before empty_session in
  accounts session !! account_id = Some account →
  ∃ account',
    accounts (ingest_calls after session) !! account_id = Some account'
    ∧ Account.account_id account' = Account.account_id account
    ∧ Account.created_at account' = Account.created_at account
    ∧ (Account.custodian_name account ≠ None →
       account' = account).
Proof.
  intros session Ha.
  destruct (ingest_calls_kept before empty_session) as [_ Hnamed].
  specialize (Hnamed custodians_named_empty). fold session in Hnamed.
  destruct (ingest_calls_kept after session) as [Hkept _].
  destruct (Hkept _ _ Ha) as (account' & Ha' & Hid & Hcreated & Hsame).
  exists account'. split_and!; auto.
  intros Hset. apply Hsame.
  destruct (Account.custodian_name account) as [c|] eqn:Hc; [|done].
  simpl. by eapply Hnamed.
Qed.

Lemma custodian_name_never_overwritten_witness :
  accounts (ingest_calls [bank_call_A] empty_session) !! "ACC001"
  = Some (Account.mk "ACC001" (Some "CUSTODIAN_A") 0)
  ∧ accounts (ingest_calls [pipe_call_B]
                (ingest_calls [bank_call_A] empty_session)) !! "ACC001"
    = Some (Account.mk "ACC001" (Some "CUSTODIAN_A") 0).
Proof.
  assert (accounts (ingest_calls [bank_call_A] empty_session) !! "ACC001"
          = Some (Account.mk "ACC001" (Some "CUSTODIAN_A") 0)) as Ha
    by (vm_compute; reflexivity).
  split; [exact Ha|].
  destruct (custodian_name_never_overwritten [bank_call_A] [pipe_call_B]
              "ACC001" _ Ha) as (account' & Ha' & _ & _ & Hsame).
  rewrite Ha'. f_equal. apply Hsame. discriminate.
Defined.

(** ** Sorting *)

Section sorted_facts.
Context {A : Type} (le : A → A → bool).

Lemma sorted_insert_Permutation x l : sorted_insert le x l ≡ₚ x :: l.
Proof.
  induction l as [|y l IH]; simpl; [done|].
  destruct (le x y); [done|]. rewrite IH. apply Permutation_swap.
Qed.

Lemma sorted_Permutation l : sorted le l ≡ₚ l.
Proof.
  induction l as [|x l IH]; simpl; [done|].
  fold (sorted le l). by rewrite sorted_insert_Permutation, IH.
Qed.

Lemma elem_of_sorted x l : x ∈ sorted le l ↔ x ∈ l.
Proof. by rewrite sorted_Permutation. Qed.

Context (le_total : ∀ x y, le x y = true ∨ le y x = true).
Context (le_trans : ∀ x y z, le x y = true → le y z = true → le x z = true).

Lemma sorted_insert_StronglySorted x l :
  StronglySorted (λ a b, le a b = true) l →
  StronglySorted (λ a b, le a b = true) (sorted_insert le x l).
Proof.
  induction 1 as [|y l Hl IH Hy]; simpl; [by repeat constructor|].
  destruct (le x y) eqn:Hxy.
  - constructor; [by constructor|].
    constructor; [done|]. eapply Forall_impl; [exact Hy|]. eauto.
  - constructor; [done|].
    rewrite sorted_insert_Permutation. constructor; [|done].
    by destruct (le_total x y) as [?|?]; [congruence|].
Qed.

Lemma sorted_StronglySorted l :
  StronglySorted (λ a b, le a b = true) (sorted le l).
Proof.
  induction l as [|x l IH]; simpl; [constructor|].
  by apply sorted_insert_StronglySorted.
Qed.
End sorted_facts.

(** ** Sums of decimals *)

Lemma Qltb_lt a b : Qltb a b = true ↔ (a < b)%Q.
Proof.
  unfold Qltb. rewrite negb_true_iff. split.
  - intros H. apply Qnot_le_lt. intros Hle.
    apply Qle_bool_iff in Hle. congruence.
  - intros H. destruct (Qle_bool b a) eqn:Hb; [|done].
    apply Qle_bool_iff in Hb. by apply Qle_not_lt in Hb.
Qed.

Lemma foldl_Qplus_shift a l : (foldl Qplus a l == a + Qsum l)%Q.
Proof.
  unfold Qsum. revert a. induction l as [|x l IH]; intros a; simpl.
  - ring.
  - rewrite (IH (a + x)%Q), (IH (0 + x)%Q). ring.
Qed.

Lemma Qsum_cons x l : (Qsum (x :: l) == x + Qsum l)%Q.
Proof. unfold Qsum at 1. simpl. rewrite foldl_Qplus_shift. ring. Qed.

Lemma Qsum_nonneg l : Forall (λ y, 0 <= y)%Q l → (0 <= Qsum l)%Q.
Proof.
  induction 1 as [|y l Hy Hl IH]; [done|].
  rewrite Qsum_cons. lra.
Qed.

Lemma Qsum_ge_elem x l :
  x ∈ l → Forall (λ y, 0 <= y)%Q l → (x <= Qsum l)%Q.
Proof.
  intros Hin Hall. induction Hin as [x l | x y l Hin IH].
  - apply Forall_cons in Hall as [_ Hl]. rewrite Qsum_cons.
    pose proof (Qsum_nonneg l Hl) as Hs. lra.
  - apply Forall_cons in Hall as [Hy Hl]. rewrite Qsum_cons.
    specialize (IH Hl). lra.
Qed.

(** ** The "Check violations" loop *)

Lemma account_total_ge pos positions_list :
  pos ∈ positions_list →
  (0 < Holding.market_value pos)%Q →
  (Holding.market_value pos <= account_total positions_list)%Q.
Proof.
  intros Hin Hpos. unfold account_total. apply Qsum_ge_elem.
  - apply list_elem_of_fmap_2. apply list_elem_of_filter. split; [|done].
    by apply Qltb_lt.
  - apply Forall_forall. intros y (p & -> & Hp)%list_elem_of_fmap.
    apply list_elem_of_filter in Hp as [Hp _].
    apply Qltb_lt in Hp. by apply Qlt_le_weak.
Qed.

Lemma check_position_Some account_id total_value pos v :
  check_position account_id total_value pos = Some v →
  (0 < Holding.market_value pos)%Q
  ∧ Violation.account_id v = account_id
  ∧ Violation.ticker v = Holding.ticker pos
  ∧ Violation.shares v = Holding.shares pos
  ∧ Violation.market_value v = Holding.market_value pos
  ∧ Violation.account_total_value v = total_value
  ∧ Violation.custodian_ref v = Holding.custodian_ref pos
  ∧ Violation.concentration_pct v
    = ((if Qltb 0 total_value
        then Holding.market_value pos / total_value else 0) * 100)%Q.
Proof.
  unfold check_position.
  destruct (Qle_bool (Holding.market_value pos) 0) eqn:Hle; [done|].
  case_match; [|done]. intros [= <-]. simpl. split_and!; try done.
  apply Qltb_lt. unfold Qltb. by rewrite Hle.
Qed.

Lemma check_account_elem account_id positions_list v :
  v ∈ check_account account_id positions_list →
  ∃ pos, pos ∈ positions_list
    ∧ check_position account_id (account_total positions_list) pos = Some v.
Proof.
  unfold check_account. intros (pos & Hpos & Hv)%list_elem_of_omap.
  apply elem_of_sorted in Hpos. eauto.
Qed.

Lemma check_violations_elem account_positions v :
  v ∈ check_violations account_positions →
  ∃ account_id positions_list,
    (account_id, positions_list) ∈ account_positions
    ∧ v ∈ check_account account_id positions_list.
Proof.
  unfold check_violations.
  intros ([account_id positions_list] & Hv & Hitem)%list_elem_of_bind.
  apply elem_of_sorted in Hitem. eauto.
Qed.

Lemma pct_bounded (value total : Q) :
  (0 < value)%Q → (value <= total)%Q →
  (0 <= (if Qltb 0 total then value / total else 0) * 100 <= 100)%Q.
Proof.
  intros Hv Hle.
  assert (0 < total)%Q as Ht by lra.
  apply Qltb_lt in Ht as Htb. rewrite Htb.
  assert (0 <= value / total)%Q as H0.
  { apply Qle_shift_div_l; [done|]. lra. }
  assert (value / total <= 1)%Q as H1.
  { apply Qle_shift_div_r; [done|]. lra. }
  lra.
Qed.

Lemma check_violations_bounded account_positions v :
  v ∈ check_violations account_positions →
  (0 < Violation.market_value v)%Q
  ∧ (Violation.market_value v <= Violation.account_total_value v)%Q
  ∧ (0 <= Violation.concentration_pct v <= 100)%Q.
Proof.
  intros (account_id & positions_list & _ & Hv)%check_violations_elem.
  apply check_account_elem in Hv as (pos & Hpos & Hv).
  apply check_position_Some in Hv
    as (Hp & _ & _ & _ & Hmv & Htot & _ & Hpct).
  pose proof (account_total_ge pos positions_list Hpos Hp) as Hge.
  rewrite Hmv, Htot, Hpct. split_and!; [done|done|..];
    by apply pct_bounded.
Qed.

(** C1: every violation of either computation belongs to a position of
    positive value that is at most the account total, so its
    [concentration_pct] lies between 0 and 100. *)
Theorem concentration_pct_bounded session query_date v :
  v ∈ (compliance_concentration session query_date).1
  ∨ v ∈ (compliance_concentration session query_date).2 →
  (0 < Violation.market_value v)%Q
  ∧ (Violation.market_value v <= Violation.account_total_value v)%Q
  ∧ (0 <= Violation.concentration_pct v <= 100)%Q.
Proof.
  unfold compliance_concentration, violations_from_trades,
    violations_from_bank. simpl.
  intros [Hv|Hv]; by eapply check_violations_bounded.
Qed.

Lemma concentration_pct_bounded_witness :
  ∃ v, (compliance_concentration sample_session 100%Z).1 !! 2 = Some v
       ∧ Violation.ticker v = "NVDA"
       ∧ (0 <= Violation.concentration_pct v <= 100)%Q.
Proof.
  eexists. split; [vm_compute; reflexivity|]. split; [reflexivity|].
  apply (concentration_pct_bounded sample_session 100%Z).
  left. apply (list_elem_of_lookup_2 _ 2). vm_compute. reflexivity.
Defined.

(** ** Dicts built by a loop *)

Section pydict_facts.
Context {K V : Type} `{EqDecision K}.
Implicit Types (d : list (K * V)) (k : K) (v : V).

Lemma dict_get_set_eq k v d : dict_get k (dict_set k v d) = Some v.
Proof.
  induction d as [|[k' v'] d IH]; simpl.
  - by rewrite decide_True.
  - case_decide; simpl; [by rewrite decide_True|].
    by rewrite decide_False.
Qed.

Lemma dict_get_set_ne k k' v d :
  k ≠ k' → dict_get k' (dict_set k v d) = dict_get k' d.
Proof.
  intros Hne. induction d as [|[k'' v''] d IH]; simpl.
  - by rewrite decide_False.
  - destruct (decide (k = k'')) as [->|Hk]; simpl.
    + by rewrite !decide_False by done.
    + by rewrite IH.
Qed.

Lemma dict_get_elem k v d : dict_get k d = Some v → (k, v) ∈ d.
Proof.
  induction d as [|[k' v'] d IH]; simpl; [done|].
  case_decide; [intros [= <-]; subst; left | right; auto].
Qed.

Lemma dict_set_keys k v d :
  (k ∈ (fst <$> d) ∧ (fst <$> dict_set k v d) = (fst <$> d))
  ∨ ((k ∉ (fst <$> d)) ∧ (fst <$> dict_set k v d) = ((fst <$> d) ++ [k])).
Proof.
  induction d as [|[k' v'] d IH]; cbn [dict_set].
  - right. split; [apply not_elem_of_nil|done].
  - destruct (decide (k = k')) as [->|Hk]; rewrite !fmap_cons; cbn [fst].
    + left. split; [left|done].
    + destruct IH as [[Hin Heq]|[Hnin Heq]]; rewrite Heq.
      * left. split; [by right|done].
      * right. split; [|done].
        intros [?|?]%elem_of_cons; done.
Qed.

Lemma dict_set_NoDup k v d :
  NoDup (fst <$> d) → NoDup (fst <$> dict_set k v d).
Proof.
  intros Hd. destruct (dict_set_keys k v d) as [[_ ->]|[Hnin ->]]; [done|].
  apply NoDup_app. split_and!; [done| |apply NoDup_singleton].
  intros x Hx ->%list_elem_of_singleton. done.
Qed.

Lemma dict_elem_get k v d :
  NoDup (fst <$> d) → (k, v) ∈ d → dict_get k d = Some v.
Proof.
  induction d as [|[k' v'] d IH]; [by intros _ ?%elem_of_nil|].
  rewrite fmap_cons. cbn [fst dict_get].
  intros [Hk' Hd]%NoDup_cons [[= <- <-]|Hin]%elem_of_cons.
  - by rewrite decide_True.
  - rewrite decide_False; [auto|].
    intros ->. apply Hk'. by apply (list_elem_of_fmap_2 fst) in Hin.
Qed.

Lemma elem_of_dict_set k v k' v' d :
  (k', v') ∈ dict_set k v d → (k', v') = (k, v) ∨ (k', v') ∈ d.
Proof.
  induction d as [|[k'' v''] d IH]; simpl.
  - intros ->%list_elem_of_singleton. by left.
  - case_decide; intros [->|Hin]%elem_of_cons.
    + by left.
    + right. by right.
    + right. by left.
    + destruct (IH Hin); [by left|right; by right].
Qed.
End pydict_facts.

Section dict_fold.
Context {K V T : Type} `{EqDecision K}.
Context (key : T → K) (init : V) (upd : V → T → V).

Lemma dict_fold_NoDup ts :
  NoDup (fst <$> foldl (dict_step key init upd) [] ts).
Proof.
  induction ts as [|t ts IH] using rev_ind; [constructor|].
  rewrite foldl_snoc. by apply dict_set_NoDup.
Qed.

Lemma dict_fold_get ts k :
  dict_get k (foldl (dict_step key init upd) [] ts)
  = match filter (λ t, key t = k) ts with
    | [] => None
    | l => Some (foldl upd init l)
    end.
Proof.
  induction ts as [|t ts IH] using rev_ind; [done|].
  rewrite foldl_snoc, filter_app, filter_cons, filter_nil.
  unfold dict_step at 1.
  destruct (decide (key t = k)) as [<-|Hne].
  - rewrite dict_get_set_eq, IH.
    destruct (filter (λ t0, key t0 = key t) ts) as [|t' l] eqn:Hf.
    + done.
    + simpl. by rewrite foldl_snoc.
  - rewrite dict_get_set_ne by done. rewrite IH, app_nil_r. done.
Qed.
End dict_fold.

Lemma Zsum_app l1 l2 : Zsum (l1 ++ l2) = (Zsum l1 + Zsum l2)%Z.
Proof. induction l1 as [|x l1 IH]; simpl; [done|]. rewrite IH. lia. Qed.

Lemma foldl_shares {X} (value : Trade.t → X) (add : X → X → X) (x0 : X)
    (ts : list Trade.t) (z0 : Z) :
  (foldl (λ (cur : Z * X) t, ((cur.1 + Trade.quantity t)%Z,
                               add cur.2 (value t))) (z0, x0) ts).1
  = (z0 + Zsum (Trade.quantity <$> ts))%Z.
Proof.
  revert z0 x0. induction ts as [|t ts IH]; intros z0 x0; [simpl; lia|].
  cbn [foldl fst snd]. rewrite IH, fmap_cons. unfold Zsum. cbn [foldr]. lia.
Qed.

(** ** Grouping holdings by account *)

Lemma elem_of_dict_append {V} account_id (x : V) d a l :
  NoDup (fst <$> d) →
  (a, l) ∈ dict_append account_id x d →
  (a, l) ∈ d
  ∨ (a = account_id ∧ ∃ old, l = old ++ [x]
       ∧ (old = [] ∨ (account_id, old) ∈ d)).
Proof.
  intros Hd Hin. unfold dict_append in Hin.
  apply elem_of_dict_set in Hin as [Heq|Hin]; [|by left].
  injection Heq as -> ->.
  right. split; [done|]. eexists. split; [done|].
  destruct (dict_get account_id d) as [old|] eqn:Hget; simpl.
  - right. by apply dict_get_elem.
  - by left.
Qed.

Lemma dict_append_NoDup {V} account_id (x : V) d :
  NoDup (fst <$> d) → NoDup (fst <$> dict_append account_id x d).
Proof. apply dict_set_NoDup. Qed.

Lemma group_trade_fold (positions_map items : list (string * string * (Z * Q))) :
  ∀ acc : list (string * list Holding.t),
  (∀ item, item ∈ items → item ∈ positions_map) →
  NoDup (fst <$> acc) →
  (∀ a l h, (a, l) ∈ acc → h ∈ l →
     Holding.shares h ≠ 0%Z
     ∧ (a, Holding.ticker h, (Holding.shares h, Holding.market_value h))
       ∈ positions_map) →
  let acc' := foldl group_trade_step acc items in
  NoDup (fst <$> acc')
  ∧ ∀ a l h, (a, l) ∈ acc' → h ∈ l →
      Holding.shares h ≠ 0%Z
      ∧ (a, Holding.ticker h, (Holding.shares h, Holding.market_value h))
        ∈ positions_map.
Proof.
  induction items as [|[[account_id ticker] data] items IH];
    intros acc Hsub Hnd Hacc; [by split|].
  cbn [foldl]. apply IH.
  - intros item Hitem. apply Hsub. by right.
  - unfold group_trade_step. case_decide; [done|]. by apply dict_append_NoDup.
  - intros a l h Hal Hh. unfold group_trade_step in Hal.
    case_decide as Hzero; [by eapply Hacc|].
    apply elem_of_dict_append in Hal
      as [Hal|(-> & old & -> & Hold)]; [by eapply Hacc | |done].
    apply elem_of_app in Hh as [Hh|Hh%list_elem_of_singleton].
    + destruct Hold as [->|Hold]; [by apply elem_of_nil in Hh|].
      by eapply Hacc.
    + subst h. simpl. split; [done|]. destruct data. apply Hsub. by left.
Qed.

Lemma group_trade_positions_elem
    (positions_map : list (string * string * (Z * Q))) a l h :
  (a, l) ∈ group_trade_positions positions_map → h ∈ l →
  Holding.shares h ≠ 0%Z
  ∧ (a, Holding.ticker h, (Holding.shares h, Holding.market_value h))
    ∈ positions_map.
Proof.
  destruct (group_trade_fold positions_map positions_map []) as [_ H];
    [done|constructor|by intros ??? ?%elem_of_nil|].
  apply H.
Qed.

Lemma concentration_map_shares ts key data :
  (key, data) ∈ foldl concentration_step [] ts →
  data.1 = net_shares ts key.
Proof.
  change concentration_step
    with (dict_step trade_key (0%Z, 0%Q)
            (λ (cur : Z * Q) t, ((cur.1 + Trade.quantity t)%Z,
                                 (cur.2 + trade_value t)%Q))).
  intros Hin. apply dict_elem_get in Hin; [|apply dict_fold_NoDup].
  rewrite dict_fold_get in Hin. unfold net_shares.
  destruct (filter (λ t, trade_key t = key) ts) as [|t l]; [done|].
  injection Hin as <-.
  exact (foldl_shares trade_value Qplus 0%Q (t :: l) 0%Z).
Qed.

Lemma group_bank_fold bank_positions : ∀ acc,
  NoDup (fst <$> acc) →
  let acc' := foldl group_bank_step acc bank_positions in
  NoDup (fst <$> acc')
  ∧ (∀ a l h, dict_get a acc = Some l → h ∈ l →
       ∃ l', dict_get a acc' = Some l' ∧ h ∈ l')
  ∧ (∀ pos, pos ∈ bank_positions →
       ∃ l', dict_get (Position.account_id pos) acc' = Some l'
             ∧ bank_holding pos ∈ l').
Proof.
  induction bank_positions as [|pos0 bank_positions IH]; intros acc Hnd.
  { simpl. split_and!; [done|eauto|by intros ? ?%elem_of_nil]. }
  cbn [foldl].
  destruct (IH (group_bank_step acc pos0)) as (Hnd' & Hold & Hnew);
    [by apply dict_append_NoDup|].
  assert (∀ a l h, dict_get a acc = Some l → h ∈ l →
            ∃ l', dict_get a (group_bank_step acc pos0) = Some l' ∧ h ∈ l')
    as Hstep.
  { intros a l h Hget Hh. unfold group_bank_step, dict_append.
    destruct (decide (Position.account_id pos0 = a)) as [<-|Hne].
    - rewrite dict_get_set_eq, Hget. eexists. split; [done|].
      apply elem_of_app. by left.
    - rewrite dict_get_set_ne by done. eauto. }
  split_and!; [done| |].
  - intros a l h Hget Hh. destruct (Hstep _ _ _ Hget Hh) as (l1 & H1 & Hh1).
    eauto.
  - intros pos [->|Hin]%elem_of_cons; [|by apply Hnew].
    apply (Hold _ (default [] (dict_get (Position.account_id pos0) acc)
                   ++ [bank_holding pos0])).
    + unfold group_bank_step, dict_append. apply dict_get_set_eq.
    + apply elem_of_app. right. by left.
Qed.

(** ** Claims about the concentration check *)

(** C6 as stated fails for the bank computation: after ingesting a
    document with a row of zero shares and value 5000 next to a row of 10
    shares and value 1000, the zero-share row is counted in the account
    total (6000) and is itself reported as a violation. *)
Lemma bank_zero_shares_flagged :
  let out := ingest_bank_positions 0%Z empty_session "bank_positions.yaml"
               (inr zero_share_doc) in
  let vs := violations_from_bank out.2 100%Z in
  records_valid out.1 = 2
  ∧ Violation.ticker <$> vs = ["ZERO"]
  ∧ Violation.shares <$> vs = [0%Z]
  ∧ Forall (λ v, Violation.account_total_value v == 6000)%Q vs
  ∧ ¬ (∀ v, v ∈ vs → Violation.shares v ≠ 0%Z).
Proof.
  intros out vs.
  assert (Violation.shares <$> vs = [0%Z]) as Hshares
    by (vm_compute; reflexivity).
  split_and!; [vm_compute; reflexivity..| |].
  - vm_compute. repeat constructor.
  - intros Hall. destruct vs as [|v vs']; [discriminate|].
    injection Hshares as Hv _. apply (Hall v); [by left|done].
Qed.

(** C6, amended: the trade computation drops every (account, ticker)
    aggregate whose net share count is zero before totals and violations
    are computed: a violation has the non-zero net share count of its key,
    and its account total is the total of a list of holdings that all have
    a non-zero net share count.  The bank computation has no such step:
    every snapshot row of the date is in the list of its account, whatever
    its share count. *)
Theorem zero_shares_by_source session query_date :
  let ts := filter (λ t, (Trade.trade_date t ≤ query_date)%Z)
              (trades session) in
  let bank_positions :=
    filter (λ p, Position.report_date p = query_date) (positions session) in
  (∀ v, v ∈ violations_from_trades session query_date →
     Violation.shares v
     = net_shares ts (Violation.account_id v, Violation.ticker v)
     ∧ Violation.shares v ≠ 0%Z
     ∧ ∃ positions_list,
         (Violation.account_id v, positions_list)
           ∈ group_trade_positions (foldl concentration_step [] ts)
         ∧ Violation.account_total_value v = account_total positions_list
         ∧ ∀ h, h ∈ positions_list →
             Holding.shares h
             = net_shares ts (Violation.account_id v, Holding.ticker h)
             ∧ Holding.shares h ≠ 0%Z)
  ∧ (violations_from_bank session query_date
     = check_violations (group_bank_positions bank_positions)
     ∧ ∀ pos, pos ∈ bank_positions →
         ∃ positions_list,
           dict_get (Position.account_id pos)
             (group_bank_positions bank_positions) = Some positions_list
           ∧ bank_holding pos ∈ positions_list).
Proof.
  intros ts bank_positions. split.
  - intros v Hv. unfold violations_from_trades in Hv. fold ts in Hv.
    apply check_violations_elem in Hv as (a & l & Hal & Hv).
    apply check_account_elem in Hv as (pos & Hpos & Hv).
    apply check_position_Some in Hv
      as (_ & Hid & Htick & Hsh & _ & Htot & _).
    assert (∀ h, h ∈ l →
              Holding.shares h = net_shares ts (a, Holding.ticker h)
              ∧ Holding.shares h ≠ 0%Z) as Hall.
    { intros h Hh.
      destruct (group_trade_positions_elem _ _ _ _ Hal Hh) as [Hnz Hitem].
      split; [|done]. by apply concentration_map_shares in Hitem. }
    rewrite Hid, Htick, Hsh. destruct (Hall pos Hpos) as [Hnet Hnz].
    split_and!; [done|done|]. exists l. by rewrite Htot.
  - split; [done|]. intros pos Hpos.
    destruct (group_bank_fold bank_positions []) as (_ & _ & Hnew);
      [constructor|].
    by apply Hnew.
Qed.

Lemma zero_shares_by_source_witness :
  ∃ v, violations_from_trades sample_session 100%Z !! 2 = Some v
       ∧ Violation.ticker v = "NVDA"
       ∧ Violation.shares v ≠ 0%Z.
Proof.
  eexists. split; [vm_compute; reflexivity|]. split; [reflexivity|].
  apply (proj1 (zero_shares_by_source sample_session 100%Z)).
  apply (list_elem_of_lookup_2 _ 2). vm_compute. reflexivity.
Defined.

(** ** Claims about the fallback positions path *)

Lemma fallback_map_get ts ticker :
  dict_get ticker (foldl fallback_step [] ts)
  = match filter (λ t, Trade.ticker t = ticker) ts with
    | [] => None
    | l => Some (foldl (λ (cur : Z * Q) t,
                          ((cur.1 + Trade.quantity t)%Z,
                           (cur.2 + trade_cost t)%Q)) (0%Z, 0%Q) l)
    end.
Proof.
  change fallback_step
    with (dict_step Trade.ticker (0%Z, 0%Q)
            (λ (cur : Z * Q) t, ((cur.1 + Trade.quantity t)%Z,
                                 (cur.2 + trade_cost t)%Q))).
  apply dict_fold_get.
Qed.

Lemma fallback_map_NoDup ts : NoDup (fst <$> foldl fallback_step [] ts).
Proof.
  change fallback_step
    with (dict_step Trade.ticker (0%Z, 0%Q)
            (λ (cur : Z * Q) t, ((cur.1 + Trade.quantity t)%Z,
                                 (cur.2 + trade_cost t)%Q))).
  apply dict_fold_NoDup.
Qed.

Lemma fallback_map_shares ts ticker data :
  dict_get ticker (foldl fallback_step [] ts) = Some data →
  data.1 = ticker_shares ts ticker
  ∧ ∃ t, t ∈ ts ∧ Trade.ticker t = ticker.
Proof.
  rewrite fallback_map_get. unfold ticker_shares.
  destruct (filter (λ t, Trade.ticker t = ticker) ts) as [|t l] eqn:Hf;
    [done|].
  intros [= <-]. split.
  - exact (foldl_shares trade_cost Qplus 0%Q (t :: l) 0%Z).
  - exists t. assert (t ∈ filter (λ t, Trade.ticker t = ticker) ts) as Ht
      by (rewrite Hf; left).
    apply list_elem_of_filter in Ht as [? ?]. done.
Qed.

Lemma fallback_map_traded ts ticker t :
  t ∈ ts → Trade.ticker t = ticker →
  ∃ data, dict_get ticker (foldl fallback_step [] ts) = Some data.
Proof.
  intros Ht Hticker. rewrite fallback_map_get.
  destruct (filter (λ t, Trade.ticker t = ticker) ts) as [|t' l] eqn:Hf;
    [|eauto].
  assert (t ∈ filter (λ t, Trade.ticker t = ticker) ts) as Hin
    by (by apply list_elem_of_filter).
  rewrite Hf in Hin. by apply elem_of_nil in Hin.
Qed.

Lemma fallback_result_elem positions_map p :
  p ∈ fallback_result positions_map ↔
  ∃ ticker data, (ticker, data) ∈ positions_map ∧ data.1 ≠ 0%Z
    ∧ p = FallbackPosition.mk ticker data.1 (data.2 / inject_Z data.1)%Q
            data.2 None "Calculated from trades; no current market value".
Proof.
  unfold fallback_result. rewrite list_elem_of_omap. split.
  - intros ([ticker data] & Hin & Hp).
    destruct (decide (data.1 ≠ 0%Z)) as [Hnz|]; [|done].
    injection Hp as <-. eauto.
  - intros (ticker & data & Hin & Hnz & ->). exists (ticker, data).
    split; [done|]. cbn beta iota. by rewrite !decide_True by done.
Qed.

(** C7: when the account has no snapshot row on the date, [get_positions]
    answers from the trades of the account up to the date: "no data" when
    there is none, otherwise one position per traded ticker whose net
    signed share count is not zero, and no position for a ticker whose net
    count is zero; every position carries that count and no market
    value. *)
Theorem fallback_positions_nonzero_no_market_value session account_id
    query_date :
  filter (λ p, Position.account_id p = account_id
               ∧ Position.report_date p = query_date)
         (positions session) = [] →
  let ts := filter (λ t, Trade.account_id t = account_id
                         ∧ (Trade.trade_date t ≤ query_date)%Z)
                   (trades session) in
  (ts = [] ∧ get_positions session account_id query_date = NoData)
  ∨ (ts ≠ []
     ∧ ∃ result,
         get_positions session account_id query_date
         = CalculatedFromTrades result
         ∧ (∀ p, p ∈ result →
              FallbackPosition.market_value p = None
              ∧ FallbackPosition.shares p ≠ 0%Z
              ∧ FallbackPosition.shares p
                = ticker_shares ts (FallbackPosition.ticker p))
         ∧ (∀ ticker,
              ticker ∈ (FallbackPosition.ticker <$> result) ↔
              (∃ t, t ∈ ts ∧ Trade.ticker t = ticker)
              ∧ ticker_shares ts ticker ≠ 0%Z)
         ∧ NoDup (FallbackPosition.ticker <$> result)).
Proof.
  intros Hnone ts. unfold get_positions. rewrite Hnone.
  unfold calculate_positions_from_trades. fold ts.
  destruct ts as [|t0 ts0] eqn:Hts; [by left|]. right. split; [done|].
  rewrite <- Hts. clear Hts. eexists. split; [reflexivity|]. split_and!.
  - intros p (ticker & data & Hin & Hnz & ->)%fallback_result_elem. simpl.
    apply dict_elem_get in Hin; [|apply fallback_map_NoDup].
    apply fallback_map_shares in Hin as [Hsh _]. by rewrite <- Hsh.
  - intros ticker. rewrite list_elem_of_fmap. split.
    + intros (p & -> & (tk & data & Hin & Hnz & ->)%fallback_result_elem).
      simpl. apply dict_elem_get in Hin; [|apply fallback_map_NoDup].
      apply fallback_map_shares in Hin as [Hsh Ht]. by rewrite <- Hsh.
    + intros [(t & Ht & Hticker) Hnz].
      destruct (fallback_map_traded ts ticker t Ht Hticker) as [data Hget].
      pose proof (fallback_map_shares _ _ _ Hget) as [Hsh _].
      eexists. split; [|apply fallback_result_elem].
      2:{ exists ticker, data. split_and!; [by apply dict_get_elem| |done].
          by rewrite Hsh. }
      done.
  - pose proof (fallback_map_NoDup ts) as Hnd.
    induction (foldl fallback_step [] ts) as [|[tk data] m IH]; [constructor|].
    rewrite fmap_cons in Hnd. apply NoDup_cons in Hnd as [Hk Hm].
    unfold fallback_result. cbn [omap list_omap].
    destruct (decide (data.1 ≠ 0%Z)); [|by apply IH].
    rewrite fmap_cons. apply NoDup_cons. split; [|by apply IH].
    simpl. intros (p & Hp & (tk' & data' & Hin & _ & ->)%fallback_result_elem)
      %list_elem_of_fmap.
    simpl in Hp. subst tk'. apply Hk.
    by apply (list_elem_of_fmap_2 fst) in Hin.
Qed.

Lemma fallback_positions_nonzero_no_market_value_witness :
  filter (λ p, Position.account_id p = "ACC007"
               ∧ Position.report_date p = 105%Z)
         (positions closed_position_session) = []
  ∧ ∃ result,
      get_positions closed_position_session "ACC007" 105%Z
      = CalculatedFromTrades result
      ∧ FallbackPosition.ticker <$> result = ["MSFT"]
      ∧ ∀ p, p ∈ result →
          FallbackPosition.market_value p = None
          ∧ FallbackPosition.shares p ≠ 0%Z.
Proof.
  assert (filter (λ p, Position.account_id p = "ACC007"
                       ∧ Position.report_date p = 105%Z)
                 (positions closed_position_session) = []) as Hnone
    by reflexivity.
  split; [exact Hnone|].
  destruct (fallback_positions_nonzero_no_market_value
              closed_position_session "ACC007" 105%Z Hnone)
    as [[Hts _]|(_ & result & Hget & Hall & _)].
  - vm_compute in Hts. discriminate Hts.
  - exists result. split; [exact Hget|]. split.
    + assert (match get_positions closed_position_session "ACC007" 105%Z with
              | CalculatedFromTrades r => FallbackPosition.ticker <$> r
              | _ => []
              end = ["MSFT"]) as Hc by (vm_compute; reflexivity).
      rewrite Hget in Hc. exact Hc.
    + intros p Hp. destruct (Hall p Hp) as (Hmv & Hnz & _). by split.
Defined.

(** ** Claims about reconciliation *)

Lemma str_leb_total a b : str_leb a b = true ∨ str_leb b a = true.
Proof.
  unfold str_leb. destruct (total String.le a b) as [H|H];
    [left|right]; by apply bool_decide_eq_true.
Qed.

Lemma str_leb_trans a b c :
  str_leb a b = true → str_leb b c = true → str_leb a c = true.
Proof.
  unfold str_leb. rewrite !bool_decide_eq_true. intros. by etrans.
Qed.

Lemma str_leb_antisym a b :
  str_leb a b = true → str_leb b a = true → a = b.
Proof.
  unfold str_leb. rewrite !bool_decide_eq_true.
  intros. by apply (anti_symm String.le).
Qed.

Lemma key_leb_total k1 k2 : key_leb k1 k2 = true ∨ key_leb k2 k1 = true.
Proof.
  unfold key_leb. destruct (decide (k1.1 = k2.1)) as [Heq|Hne].
  - rewrite decide_True by done. apply str_leb_total.
  - rewrite decide_False by done. apply str_leb_total.
Qed.

Lemma key_leb_trans k1 k2 k3 :
  key_leb k1 k2 = true → key_leb k2 k3 = true → key_leb k1 k3 = true.
Proof.
  destruct k1 as [a1 t1], k2 as [a2 t2], k3 as [a3 t3]. unfold key_leb.
  simpl. repeat case_decide; subst; try done;
    eauto using str_leb_trans.
  intros H12 H23. exfalso.
  match goal with H : _ ≠ _ |- _ => apply H end.
  by apply str_leb_antisym.
Qed.

Lemma expected_positions_lookup ts key :
  expected_positions ts !! key
  = match filter (λ t, trade_key t = key) ts with
    | [] => None
    | l => Some (Zsum (Trade.quantity <$> l))
    end.
Proof.
  unfold expected_positions.
  induction ts as [|t ts IH] using rev_ind; [done|].
  rewrite foldl_snoc, filter_app, filter_cons, filter_nil.
  fold (trade_key t).
  destruct (decide (trade_key t = key)) as [<-|Hne].
  - rewrite lookup_insert_eq, IH.
    destruct (filter (λ t0, trade_key t0 = trade_key t) ts) as [|t' l].
    + simpl. f_equal. lia.
    + cbn [app]. cbv iota beta.
      change (t' :: l ++ [t]) with ((t' :: l) ++ [t]).
      rewrite fmap_app, Zsum_app. simpl. f_equal. lia.
  - rewrite lookup_insert_ne by done. by rewrite IH, app_nil_r.
Qed.

Lemma expected_positions_net ts key :
  default 0%Z (expected_positions ts !! key) = net_shares ts key.
Proof.
  rewrite expected_positions_lookup. unfold net_shares.
  by destruct (filter (λ t, trade_key t = key) ts).
Qed.

Lemma expected_positions_dom ts key :
  key ∈ dom (expected_positions ts) ↔ ∃ t, t ∈ ts ∧ trade_key t = key.
Proof.
  rewrite elem_of_dom, expected_positions_lookup. split.
  - destruct (filter (λ t, trade_key t = key) ts) as [|t l] eqn:Hf;
      [by intros [? [=]]|].
    intros _. exists t.
    assert (t ∈ filter (λ t, trade_key t = key) ts) as Ht
      by (rewrite Hf; left).
    apply list_elem_of_filter in Ht as [? ?]. done.
  - intros (t & Ht & Hk).
    assert (t ∈ filter (λ t, trade_key t = key) ts) as Hin
      by (by apply list_elem_of_filter).
    destruct (filter (λ t, trade_key t = key) ts); [|done].
    by apply elem_of_nil in Hin.
Qed.

Lemma bank_positions_map_lookup ps key :
  bank_positions_map ps !! key
  = last (Position.shares <$> filter (λ p, position_key p = key) ps).
Proof.
  unfold bank_positions_map.
  induction ps as [|p ps IH] using rev_ind; [done|].
  rewrite foldl_snoc, filter_app, filter_cons, filter_nil.
  fold (position_key p).
  destruct (decide (position_key p = key)) as [<-|Hne].
  - rewrite lookup_insert_eq, fmap_app. simpl. by rewrite last_snoc.
  - rewrite lookup_insert_ne by done. by rewrite IH, app_nil_r.
Qed.

Lemma bank_positions_map_dom ps key :
  key ∈ dom (bank_positions_map ps) ↔ ∃ p, p ∈ ps ∧ position_key p = key.
Proof.
  rewrite elem_of_dom, bank_positions_map_lookup, fmap_last. split.
  - intros [n Hn]. destruct (last _) as [p|] eqn:Hlast; [|done].
    exists p. apply last_Some_elem_of in Hlast.
    apply list_elem_of_filter in Hlast as [? ?]. done.
  - intros (p & Hp & Hk).
    assert (p ∈ filter (λ p, position_key p = key) ps) as Hin
      by (by apply list_elem_of_filter).
    destruct (last (filter (λ p, position_key p = key) ps)) eqn:Hlast;
      [by eexists|].
    apply last_None in Hlast. rewrite Hlast in Hin.
    by apply elem_of_nil in Hin.
Qed.

Lemma discrepancy_of_key expected_map bank_map key d :
  discrepancy_of expected_map bank_map key = Some d → Discrepancy.key d = key.
Proof.
  unfold discrepancy_of. case_decide; [|done]. intros [= <-].
  by destruct key.
Qed.

Lemma omap_keys_sorted (f : string * string → option Discrepancy.t) keys :
  (∀ k d, f k = Some d → Discrepancy.key d = k) →
  StronglySorted (λ a b, key_leb a b = true) keys →
  NoDup keys →
  StronglySorted key_lt (Discrepancy.key <$> omap f keys).
Proof.
  intros Hf Hsorted. induction Hsorted as [|k keys Hs IH Hk]; intros Hnd.
  { constructor. }
  apply NoDup_cons in Hnd as [Hnin Hnd]. cbn [omap list_omap].
  destruct (f k) as [d|] eqn:Hd; [|by apply IH].
  rewrite fmap_cons. constructor; [by apply IH|].
  apply Forall_forall. intros k' (d' & -> & (k'' & Hin & Hd')%list_elem_of_omap)
    %list_elem_of_fmap.
  rewrite (Hf _ _ Hd), (Hf _ _ Hd'). split.
  - rewrite Forall_forall in Hk. by apply Hk.
  - intros ->. done.
Qed.

(** C2: [reconciliation] reports exactly the keys, taken from the trades
    up to the date and from the snapshot rows of the date, whose expected
    shares (signed sum of the trade quantities) differ from the actual
    shares (snapshot shares, 0 without a row); every discrepancy carries
    both counts, their difference and the status; the keys of the output
    increase strictly in the order of (account_id, ticker), so the output
    is sorted and holds one discrepancy per key. *)
Theorem reconciliation_correct session query_date :
  let ts := filter (λ t, (Trade.trade_date t ≤ query_date)%Z)
              (trades session) in
  let ps := filter (λ p, Position.report_date p = query_date)
              (positions session) in
  let response := reconciliation session query_date in
  (∀ d, d ∈ discrepancies response →
     let key := Discrepancy.key d in
     ((∃ t, t ∈ ts ∧ trade_key t = key) ∨ (∃ p, p ∈ ps ∧ position_key p = key))
     ∧ Discrepancy.expected_shares d = net_shares ts key
     ∧ Discrepancy.actual_shares d = snapshot_shares ps key
     ∧ Discrepancy.expected_shares d ≠ Discrepancy.actual_shares d
     ∧ Discrepancy.difference d
       = (Discrepancy.actual_shares d - Discrepancy.expected_shares d)%Z
     ∧ Discrepancy.status d
       = if decide (Discrepancy.actual_shares d = 0%Z)
         then "missing_in_bank"
         else if decide (Discrepancy.expected_shares d = 0%Z)
         then "missing_in_trades"
         else "quantity_mismatch")
  ∧ (∀ key, net_shares ts key ≠ snapshot_shares ps key →
       ((∃ t, t ∈ ts ∧ trade_key t = key)
        ∨ (∃ p, p ∈ ps ∧ position_key p = key))
       ∧ ∃ d, d ∈ discrepancies response ∧ Discrepancy.key d = key)
  ∧ StronglySorted key_lt (Discrepancy.key <$> discrepancies response)
  ∧ discrepancies_found response = length (discrepancies response).
Proof.
  intros ts ps response.
  assert (∀ key, key ∈ elements (dom (expected_positions ts)
                                 ∪ dom (bank_positions_map ps)) ↔
                 (∃ t, t ∈ ts ∧ trade_key t = key)
                 ∨ (∃ p, p ∈ ps ∧ position_key p = key)) as Hkeys.
  { intros key. rewrite elem_of_elements, elem_of_union.
    by rewrite expected_positions_dom, bank_positions_map_dom. }
  assert (∀ key, default 0%Z (bank_positions_map ps !! key)
                 = snapshot_shares ps key) as Hactual.
  { intros key. by rewrite bank_positions_map_lookup. }
  assert (discrepancies response
          = omap (discrepancy_of (expected_positions ts)
                    (bank_positions_map ps))
              (sorted key_leb (elements (dom (expected_positions ts)
                                         ∪ dom (bank_positions_map ps)))))
    as Hds by reflexivity.
  split_and!.
  - intros d Hd key. rewrite Hds in Hd.
    apply list_elem_of_omap in Hd as (k & Hk & Hd).
    apply elem_of_sorted, Hkeys in Hk.
    pose proof (discrepancy_of_key _ _ _ _ Hd) as Hkey. fold key in Hkey.
    subst k. unfold discrepancy_of in Hd.
    rewrite expected_positions_net, Hactual in Hd.
    case_decide as Hne; [|done]. injection Hd as <-. simpl.
    split_and!; try done.
  - intros key Hne.
    assert ((∃ t, t ∈ ts ∧ trade_key t = key)
            ∨ (∃ p, p ∈ ps ∧ position_key p = key)) as Hin.
    { destruct (decide (key ∈ elements (dom (expected_positions ts)
                                        ∪ dom (bank_positions_map ps))))
        as [Hin|Hnin]; [by apply Hkeys|].
      exfalso. apply Hne.
      rewrite elem_of_elements, elem_of_union in Hnin.
      rewrite <- expected_positions_net, <- Hactual.
      rewrite (not_elem_of_dom_1 (expected_positions ts) key) by tauto.
      by rewrite (not_elem_of_dom_1 (bank_positions_map ps) key) by tauto. }
    split; [done|]. rewrite Hds.
    eexists. split.
    + apply list_elem_of_omap. exists key. split.
      * by apply elem_of_sorted, Hkeys.
      * unfold discrepancy_of. rewrite expected_positions_net, Hactual.
        by rewrite decide_True.
    + by destruct key.
  - rewrite Hds. apply omap_keys_sorted.
    + apply discrepancy_of_key.
    + apply sorted_StronglySorted;
        [apply key_leb_total|apply key_leb_trans].
    + rewrite sorted_Permutation. apply NoDup_elements.
  - done.
Qed.

Lemma reconciliation_correct_witness :
  Discrepancy.key <$> discrepancies (reconciliation recon_session 100%Z)
  = [("ACC001", "GOOGL"); ("ACC001", "TSLA");
     ("ACC003", "NVDA"); ("ACC003", "TSLA")]
  ∧ ∃ d, discrepancies (reconciliation recon_session 100%Z) !! 0 = Some d
      ∧ Discrepancy.expected_shares d = 100%Z
      ∧ Discrepancy.actual_shares d = 75%Z
      ∧ Discrepancy.difference d = (-25)%Z
      ∧ Discrepancy.status d = "quantity_mismatch".
Proof.
  split; [vm_compute; reflexivity|].
  eexists. split; [vm_compute; reflexivity|].
  match goal with |- Discrepancy.expected_shares ?x = _ ∧ _ =>
    set (d := x) end.
  assert (d ∈ discrepancies (reconciliation recon_session 100%Z)) as Hd.
  { apply (list_elem_of_lookup_2 _ 0). vm_compute. reflexivity. }
  destruct (proj1 (reconciliation_correct recon_session 100%Z) d Hd)
    as (_ & _ & _ & _ & Hdiff & Hstatus).
  split; [reflexivity|]. split; [reflexivity|].
  split; [rewrite Hdiff; reflexivity|rewrite Hstatus; reflexivity].
Defined.

(** * Further properties *)

(** ** Account resolution, seen from its callers *)

(** X1: resolving an account a second time with the same custodian changes
    nothing: it returns the account of the first call and the same
    store, whatever the clock. *)
Theorem ensure_account_exists_idempotent now now' session account_id
    custodian :
  let first := ensure_account_exists now session account_id custodian in
  ensure_account_exists now' first.2 account_id custodian = first.
Proof.
  unfold ensure_account_exists, query_account.
  destruct (accounts session !! account_id) as [account|] eqn:Hq; simpl.
  - destruct (opt_str_truthy custodian) eqn:Hc; simpl.
    + destruct (opt_str_truthy (Account.custodian_name account)) eqn:Hn;
        simpl.
      * rewrite Hq. simpl. by rewrite ?Hc, ?Hn.
      * rewrite lookup_insert_eq. simpl. by rewrite ?Hc.
    + rewrite Hq. simpl. by rewrite ?Hc.
  - rewrite lookup_insert_eq. simpl.
    by destruct (opt_str_truthy custodian).
Qed.

Lemma ensure_account_exists_dom now session account_id custodian :
  dom (accounts (ensure_account_exists now session account_id custodian).2)
  = {[account_id]} ∪ dom (accounts session).
Proof.
  unfold ensure_account_exists, query_account.
  destruct (accounts session !! account_id) as [account|] eqn:Hq; simpl.
  - assert (account_id ∈ dom (accounts session)) as Hin
      by (apply elem_of_dom; eauto).
    destruct (opt_str_truthy custodian
              && negb (opt_str_truthy (Account.custodian_name account)));
      simpl; [rewrite dom_insert_L|]; apply set_eq; intros k;
      rewrite !elem_of_union, elem_of_singleton;
      (split; [tauto|intros [->|?]; tauto]).
  - by rewrite dom_insert_L.
Qed.

Lemma ensure_account_exists_other now session account_id custodian k :
  k ≠ account_id →
  accounts (ensure_account_exists now session account_id custodian).2 !! k
  = accounts session !! k.
Proof.
  intros Hne. unfold ensure_account_exists, query_account.
  destruct (accounts session !! account_id) as [account|]; simpl.
  - destruct (opt_str_truthy custodian
              && negb (opt_str_truthy (Account.custodian_name account)));
      simpl; [by rewrite lookup_insert_ne|done].
  - by rewrite lookup_insert_ne.
Qed.

Lemma apply_write_accounts now session w :
  accounts (apply_write now session w)
  = accounts (ensure_account_exists now session (write_account w)
                (write_custodian w)).2.
Proof. by destruct w. Qed.

(** ** The stores that the loops build *)

Lemma format1_loop_session now rows : ∀ n st,
  (format1_loop now n rows st).2
  = foldl (apply_write now) st.2
      ((λ v, WTrade (TradeFormat1.account_id v) None (format1_trade st.1 v))
       <$> valid1 rows).
Proof.
  induction rows as [|row rows IH]; intros n st; [done|].
  cbn [format1_loop]. unfold valid1. cbn [omap list_omap].
  destruct (TradeFormat1.validate row) as [e|v] eqn:Hrow.
  - rewrite (format1_row_invalid _ _ _ _ e Hrow), IH. reflexivity.
  - rewrite (format1_row_valid _ _ _ _ v Hrow), IH, fmap_cons. reflexivity.
Qed.

Lemma format2_loop_session now rows : ∀ n st,
  (format2_loop now n rows st).1.2
  = foldl (apply_write now) st.1.2
      ((λ v, WTrade (TradeFormat2.account_id v)
               (Some (TradeFormat2.source_system v))
               (format2_trade st.1.1 v))
       <$> valid2 rows).
Proof.
  induction rows as [|row rows IH]; intros n st; [done|].
  cbn [format2_loop]. unfold valid2. cbn [omap list_omap].
  destruct (TradeFormat2.validate row) as [e|v] eqn:Hrow.
  - rewrite (format2_row_invalid _ _ _ _ e Hrow), IH. reflexivity.
  - rewrite (format2_row_valid _ _ _ _ v Hrow), IH, fmap_cons. reflexivity.
Qed.

Lemma bank_loop_session now d ps : ∀ st,
  (foldl (λ st p, bank_row now d p st) st ps).1.2
  = foldl (apply_write now) st.1.2
      ((λ p, WPosition (BankPosition.account_id p)
               (extract_custodian_name (Some (BankPosition.custodian_ref p)))
               (stored_position (file_name st.1.1) d p))
       <$> ps).
Proof.
  induction ps as [|p ps IH]; intros st; [done|].
  cbn [foldl]. rewrite fmap_cons. cbn [foldl apply_write].
  rewrite IH. pose proof (bank_row_eq now d p st) as E.
  destruct (bank_row now d p st) as [[r s] cs]. cbn [fst snd] in *.
  injection E as -> ->. reflexivity.
Qed.

Lemma ingest_trade_format1_session now session file_name rows :
  (ingest_trade_format1 now session file_name (mkCsvRead rows None)).2
  = foldl (apply_write now) session (format1_writes file_name rows).
Proof.
  unfold ingest_trade_format1. cbn [csv_rows csv_failure].
  apply format1_loop_session.
Qed.

Lemma ingest_trade_format2_session now session file_name rows :
  (ingest_trade_format2 now session file_name (mkCsvRead rows None)).2
  = foldl (apply_write now) session (format2_writes file_name rows).
Proof.
  unfold ingest_trade_format2. cbn [csv_rows csv_failure snd].
  apply (format2_loop_session now rows 2
           (new_report file_name "PIPE_FORMAT2", session, ∅)).
Qed.

Lemma ingest_bank_positions_session now session file_name data f :
  BankPositionFile.validate data = inr f →
  (ingest_bank_positions now session file_name (inr data)).2
  = foldl (apply_write now) session (bank_writes file_name f).
Proof.
  intros Hf. unfold ingest_bank_positions. rewrite Hf. cbn [snd].
  apply (bank_loop_session now (BankPositionFile.report_date f)
           (BankPositionFile.positions f)
           (new_report file_name "YAML_POSITIONS", session, ∅)).
Qed.

(** ** Sequences of writes *)

Lemma writes_dom now ws : ∀ session,
  dom (accounts (foldl (apply_write now) session ws))
  = dom (accounts session) ∪ list_to_set (write_account <$> ws).
Proof.
  induction ws as [|w ws IH]; intros session; simpl.
  - by rewrite (right_id_L ∅ (∪)).
  - rewrite IH, apply_write_accounts, ensure_account_exists_dom.
    apply set_eq. intros k.
    rewrite !elem_of_union, elem_of_singleton. tauto.
Qed.

Lemma writes_records now ws : ∀ session,
  trades (foldl (apply_write now) session ws)
  = trades session ++ omap write_trade ws
  ∧ positions (foldl (apply_write now) session ws)
    = positions session ++ omap write_position ws.
Proof.
  induction ws as [|w ws IH]; intros session; simpl.
  - by rewrite !app_nil_r.
  - destruct (IH (apply_write now session w)) as [-> ->].
    destruct w; simpl;
      rewrite ensure_account_exists_trades, ensure_account_exists_positions,
        <- ?app_assoc; done.
Qed.

Lemma writes_kept now ws : ∀ session,
  session_kept session (foldl (apply_write now) session ws).
Proof.
  induction ws as [|w ws IH]; intros session; simpl.
  - apply session_kept_refl.
  - eapply session_kept_trans; [|apply IH].
    intros k a Ha. rewrite apply_write_accounts.
    by apply ensure_account_exists_kept.
Qed.

Lemma ensure_account_exists_keyed now session account_id custodian :
  (∀ k a, accounts session !! k = Some a → Account.account_id a = k) →
  ∀ k a,
    accounts (ensure_account_exists now session account_id custodian).2 !! k
    = Some a →
    Account.account_id a = k.
Proof.
  intros Hs k a. destruct (decide (k = account_id)) as [->|Hne].
  - unfold ensure_account_exists, query_account.
    destruct (accounts session !! account_id) as [account|] eqn:Hq; simpl.
    + destruct (opt_str_truthy custodian
                && negb (opt_str_truthy (Account.custodian_name account)));
        simpl.
      * rewrite lookup_insert_eq. intros [= <-]. simpl. by eapply Hs.
      * apply Hs.
    + rewrite lookup_insert_eq. by intros [= <-].
  - rewrite ensure_account_exists_other by done. apply Hs.
Qed.

Lemma apply_write_consistent now session w :
  write_ok w → store_consistent session →
  store_consistent (apply_write now session w).
Proof.
  intros Hw (Hkey & Htr & Hpos).
  pose proof (ensure_account_exists_kept now session (write_account w)
                (write_custodian w)) as Hkept.
  pose proof (ensure_account_exists_found now session (write_account w)
                (write_custodian w)) as Hfound.
  assert (∀ k, is_Some (accounts session !! k) →
            is_Some (accounts (apply_write now session w) !! k)) as Hmono.
  { intros k [a Ha]. rewrite apply_write_accounts.
    destruct (Hkept _ _ Ha) as (a' & Ha' & _). eauto. }
  split_and!.
  - intros k a. rewrite apply_write_accounts.
    by apply ensure_account_exists_keyed.
  - intros t Ht. destruct w as [a c t'|a c p']; simpl in *.
    + rewrite ensure_account_exists_trades in Ht.
      apply elem_of_app in Ht as [Ht|Ht%list_elem_of_singleton].
      * apply (Hmono _ (Htr _ Ht)).
      * subst t. by rewrite Hw.
    + rewrite ensure_account_exists_trades in Ht.
      apply (Hmono _ (Htr _ Ht)).
  - intros p Hp. destruct w as [a c t'|a c p']; simpl in *.
    + rewrite ensure_account_exists_positions in Hp.
      apply (Hmono _ (Hpos _ Hp)).
    + rewrite ensure_account_exists_positions in Hp.
      apply elem_of_app in Hp as [Hp|Hp%list_elem_of_singleton].
      * apply (Hmono _ (Hpos _ Hp)).
      * subst p. by rewrite Hw.
Qed.

Lemma writes_consistent now ws : ∀ session,
  Forall write_ok ws → store_consistent session →
  store_consistent (foldl (apply_write now) session ws).
Proof.
  induction ws as [|w ws IH]; intros session Hws Hs; [done|].
  apply Forall_cons in Hws as [Hw Hws]. simpl.
  apply IH; [done|]. by apply apply_write_consistent.
Qed.

Lemma format1_writes_ok file_name rows :
  Forall write_ok (format1_writes file_name rows).
Proof. unfold format1_writes. by apply Forall_fmap, Forall_true. Qed.

Lemma format2_writes_ok file_name rows :
  Forall write_ok (format2_writes file_name rows).
Proof. unfold format2_writes. by apply Forall_fmap, Forall_true. Qed.

Lemma bank_writes_ok file_name f : Forall write_ok (bank_writes file_name f).
Proof. unfold bank_writes. by apply Forall_fmap, Forall_true. Qed.

Lemma ingest_file_consistent now session file_name file file_format :
  store_consistent session →
  store_consistent (ingest_file now session file_name file file_format).2.
Proof.
  intros Hs. unfold ingest_file.
  destruct (decide (file_format = "CSV_FORMAT1")) as [_|_];
    [|destruct (decide (file_format = "PIPE_FORMAT2")) as [_|_];
      [|destruct (decide (file_format = "YAML_POSITIONS")) as [_|_]]].
  - destruct (csv_view file) as [rows [e|]].
    + by destruct (ingest_trade_format1_spec now session file_name rows
                     (Some e)) as (_ & _ & _ & _ & _ & -> & _).
    + rewrite ingest_trade_format1_session.
      apply writes_consistent; [apply format1_writes_ok|done].
  - destruct (pipe_view file) as [rows [e|]].
    + by destruct (ingest_trade_format2_spec now session file_name rows
                     (Some e)) as (_ & _ & _ & _ & _ & -> & _).
    + rewrite ingest_trade_format2_session.
      apply writes_consistent; [apply format2_writes_ok|done].
  - destruct (yaml_view file) as [e|data]; [done|].
    destruct (BankPositionFile.validate data) as [e|f] eqn:Hf.
    + unfold ingest_bank_positions. by rewrite Hf.
    + rewrite (ingest_bank_positions_session _ _ _ _ f Hf).
      apply writes_consistent; [apply bank_writes_ok|done].
  - done.
Qed.

(** X2: ingestion keeps the store consistent.  On every store that
    ingestion calls build from the empty store, each account is stored
    under its own identifier and every trade and every position refers to
    an account that exists, even after calls that were rolled back. *)
Theorem ingestion_keeps_store_consistent (calls : list IngestCall) :
  store_consistent (ingest_calls calls empty_session).
Proof.
  assert (∀ session, store_consistent session →
            store_consistent (ingest_calls calls session)) as Hall.
  { induction calls as [|c calls IH]; intros session Hs; [done|].
    simpl. apply IH. by apply ingest_file_consistent. }
  apply Hall. split_and!.
  - intros k a Ha. simpl in Ha. by rewrite lookup_empty in Ha.
  - by intros t ?%elem_of_nil.
  - by intros p ?%elem_of_nil.
Qed.

Lemma writes_no_custodian now ws :
  Forall (λ w, write_custodian w = None) ws →
  ∀ session k,
    accounts (foldl (apply_write now) session ws) !! k
    = match accounts session !! k with
      | Some a => Some a
      | None =>
          if decide (k ∈ write_account <$> ws)
          then Some (Account.mk k None now) else None
      end.
Proof.
  induction 1 as [|w ws Hw Hws IH]; intros session k.
  { simpl. by destruct (accounts session !! k). }
  cbn [foldl]. rewrite IH, apply_write_accounts, Hw, fmap_cons.
  unfold ensure_account_exists, query_account.
  destruct (decide (k = write_account w)) as [->|Hne].
  - destruct (accounts session !! write_account w) as [a|] eqn:Hq; simpl.
    + by rewrite Hq.
    + rewrite lookup_insert_eq. rewrite decide_True; [done|left].
  - assert (accounts
              (match accounts session !! write_account w with
               | Some account =>
                   if opt_str_truthy None
                      && negb (opt_str_truthy (Account.custodian_name account))
                   then (Account.mk (Account.account_id account) None
                           (Account.created_at account),
                         put_account session (write_account w)
                           (Account.mk (Account.account_id account) None
                              (Account.created_at account)))
                   else (account, session)
               | None =>
                   (Account.mk (write_account w) None now,
                    put_account session (write_account w)
                      (Account.mk (write_account w) None now))
               end).2 !! k = accounts session !! k) as ->.
    { destruct (accounts session !! write_account w); simpl; [done|].
      by rewrite lookup_insert_ne. }
    destruct (accounts session !! k); [done|].
    destruct (decide (k ∈ write_account <$> ws)) as [Hin|Hnin].
    + rewrite decide_True; [done|by right].
    + rewrite decide_False; [done|].
      intros [?|?]%elem_of_cons; done.
Qed.

Lemma ensure_account_exists_unset now session account_id custodian a :
  (account_id = a → opt_str_truthy custodian = false) →
  custodian_unset session a →
  custodian_unset (ensure_account_exists now session account_id custodian).2 a.
Proof.
  intros Hc Hs acc. destruct (decide (a = account_id)) as [->|Hne].
  - specialize (Hc eq_refl). unfold ensure_account_exists, query_account.
    destruct (accounts session !! account_id) as [account|] eqn:Hq; simpl.
    + rewrite Hc. simpl. rewrite Hq. intros [= <-]. by eapply Hs.
    + rewrite lookup_insert_eq. by intros [= <-].
  - rewrite ensure_account_exists_other by done. apply Hs.
Qed.

Lemma writes_unset now ws a : ∀ session,
  (∀ u, u ∈ ws → write_account u = a →
     opt_str_truthy (write_custodian u) = false) →
  custodian_unset session a →
  custodian_unset (foldl (apply_write now) session ws) a.
Proof.
  induction ws as [|w ws IH]; intros session Hws Hs; [done|].
  cbn [foldl]. apply IH.
  - intros u Hu. apply Hws. by right.
  - intros acc. rewrite apply_write_accounts.
    apply ensure_account_exists_unset; [|done].
    apply Hws. by left.
Qed.

Lemma ensure_account_exists_sets now session a c :
  str_truthy c = true →
  custodian_unset session a →
  ∃ acc,
    accounts (ensure_account_exists now session a (Some c)).2 !! a = Some acc
    ∧ Account.custodian_name acc = Some c
    ∧ Account.created_at acc
      = default now (Account.created_at <$> accounts session !! a).
Proof.
  intros Hc Hs. unfold ensure_account_exists, query_account.
  destruct (accounts session !! a) as [account|] eqn:Hq; simpl.
  - rewrite Hc, (Hs _ Hq). simpl. rewrite lookup_insert_eq. eauto.
  - rewrite lookup_insert_eq. eauto.
Qed.

Lemma writes_first_custodian now pre w post session a c :
  write_account w = a → write_custodian w = Some c → str_truthy c = true →
  (∀ u, u ∈ pre → write_account u = a →
     opt_str_truthy (write_custodian u) = false) →
  custodian_unset session a →
  ∃ acc,
    accounts (foldl (apply_write now) session (pre ++ w :: post)) !! a
    = Some acc
    ∧ Account.custodian_name acc = Some c.
Proof.
  intros Ha Hw Hc Hpre Hs. rewrite foldl_app. cbn [foldl].
  pose proof (writes_unset now pre a session Hpre Hs) as Hs1.
  destruct (ensure_account_exists_sets now _ a c Hc Hs1)
    as (acc & Hacc & Hname & _).
  assert (accounts (apply_write now (foldl (apply_write now) session pre) w)
            !! a = Some acc) as Hacc1.
  { by rewrite apply_write_accounts, Ha, Hw. }
  destruct (writes_kept now post _ _ _ Hacc1) as (acc' & Hacc' & _ & _ & Hsame).
  exists acc'. split; [done|]. rewrite Hsame; [done|].
  rewrite Hname. done.
Qed.

(** ** Accounts after an ingestion call *)

(** X3: after a call that commits, the accounts are those of before plus
    the accounts of the accepted records, no other: for Format A, Format B
    and, when the document validates, for bank positions. *)
Theorem ingestion_creates_referenced_accounts now session file_name :
  (∀ rows,
     dom (accounts (ingest_trade_format1 now session file_name
                      (mkCsvRead rows None)).2)
     = dom (accounts session)
       ∪ list_to_set (TradeFormat1.account_id <$> valid1 rows))
  ∧ (∀ rows,
       dom (accounts (ingest_trade_format2 now session file_name
                        (mkCsvRead rows None)).2)
       = dom (accounts session)
         ∪ list_to_set (TradeFormat2.account_id <$> valid2 rows))
  ∧ (∀ data f,
       BankPositionFile.validate data = inr f →
       dom (accounts (ingest_bank_positions now session file_name
                        (inr data)).2)
       = dom (accounts session)
         ∪ list_to_set (BankPosition.account_id
                        <$> BankPositionFile.positions f)).
Proof.
  split_and!.
  - intros rows. rewrite ingest_trade_format1_session, writes_dom.
    unfold format1_writes. by rewrite <- list_fmap_compose.
  - intros rows. rewrite ingest_trade_format2_session, writes_dom.
    unfold format2_writes. by rewrite <- list_fmap_compose.
  - intros data f Hf.
    rewrite (ingest_bank_positions_session _ _ _ _ f Hf), writes_dom.
    unfold bank_writes. by rewrite <- list_fmap_compose.
Qed.

(** X4: a Format A call never sets a custodian.  After a call that
    commits, an account that existed is exactly as before, an account
    first named by an accepted row exists with no custodian name and the
    clock of the call as creation time, and there is no other account. *)
Theorem format1_accounts_without_custodian now session file_name rows k :
  accounts (ingest_trade_format1 now session file_name
              (mkCsvRead rows None)).2 !! k
  = match accounts session !! k with
    | Some a => Some a
    | None =>
        if decide (k ∈ TradeFormat1.account_id <$> valid1 rows)
        then Some (Account.mk k None now) else None
    end.
Proof.
  rewrite ingest_trade_format1_session, writes_no_custodian.
  - unfold format1_writes. by rewrite <- list_fmap_compose.
  - unfold format1_writes. by apply Forall_fmap, Forall_true.
Qed.

Lemma ingestion_creates_referenced_accounts_witness :
  let f := BankPositionFile.mk 100
             [BankPosition.mk "ACC001" "AAPL" 100 (18550 # 1) "UNKNOWN";
              BankPosition.mk "ACC001" "MSFT" 50 (21012 # 1) "CUST_C_99999";
              BankPosition.mk "ACC001" "NVDA" 10 (5053 # 1) "CUST_A_12345"] in
  BankPositionFile.validate bare_ref_doc = inr f
  ∧ dom (accounts (ingest_bank_positions 0%Z sample_session
                     "bank_positions.yaml" (inr bare_ref_doc)).2)
    = dom (accounts sample_session)
      ∪ list_to_set (BankPosition.account_id
                     <$> BankPositionFile.positions f).
Proof.
  intros f. split; [reflexivity|].
  destruct (ingestion_creates_referenced_accounts 0%Z sample_session
              "bank_positions.yaml") as (_ & _ & Hbank).
  exact (Hbank bare_ref_doc f eq_refl).
Defined.

(** X5: Format B backfills the custodian.  When the account has no
    custodian name before the call (or does not exist), after a call that
    commits its custodian name is the source system of the first accepted
    row of the account; later rows of other source systems do not change
    it. *)
Theorem format2_sets_first_custodian now session file_name rows pre v post :
  valid2 rows = pre ++ v :: post →
  (∀ u, u ∈ pre → TradeFormat2.account_id u ≠ TradeFormat2.account_id v) →
  custodian_unset session (TradeFormat2.account_id v) →
  ∃ acc,
    accounts (ingest_trade_format2 now session file_name
                (mkCsvRead rows None)).2 !! TradeFormat2.account_id v
    = Some acc
    ∧ Account.custodian_name acc = Some (TradeFormat2.source_system v).
Proof.
  intros Hrows Hpre Hunset.
  assert (∃ row, TradeFormat2.validate row = inr v) as [row Hrow].
  { assert (v ∈ valid2 rows) as Hv
      by (rewrite Hrows; apply elem_of_app; right; left).
    apply list_elem_of_omap in Hv as (row & _ & Hv).
    exists row. by destruct (TradeFormat2.validate row) as [|v']; simplify_eq. }
  rewrite ingest_trade_format2_session. unfold format2_writes.
  rewrite Hrows, fmap_app, fmap_cons.
  apply writes_first_custodian; try done.
  - by eapply format2_source_system_named.
  - intros u (u' & -> & Hu')%list_elem_of_fmap Hacc. simpl in Hacc.
    by destruct (Hpre u' Hu').
Qed.

Lemma format2_sets_first_custodian_witness :
  ∃ acc,
    accounts (ingest_trade_format2 5%Z sample_session "trades_format2.txt"
                (mkCsvRead two_custodian_rows None)).2 !! "ACC001" = Some acc
    ∧ Account.custodian_name acc = Some "CUSTODIAN_B"
    ∧ Account.created_at acc = 0%Z.
Proof.
  destruct (format2_sets_first_custodian 5%Z sample_session
              "trades_format2.txt" two_custodian_rows []
              (TradeFormat2.mk 100 "ACC001" "AAPL" 100 (18550 # 1)
                 "CUSTODIAN_B")
              [TradeFormat2.mk 100 "ACC001" "MSFT" (-50) (21012 # 1)
                 "CUSTODIAN_A"])
    as (acc & Hacc & Hname).
  - reflexivity.
  - by intros u ?%elem_of_nil.
  - intros a Ha. vm_compute in Ha. injection Ha as <-. reflexivity.
  - exists acc. split; [exact Hacc|]. split; [exact Hname|].
    assert (accounts (ingest_trade_format2 5%Z sample_session
                        "trades_format2.txt"
                        (mkCsvRead two_custodian_rows None)).2 !! "ACC001"
            = Some (Account.mk "ACC001" (Some "CUSTODIAN_B") 0%Z)) as Hc
      by (vm_compute; reflexivity).
    cbn [TradeFormat2.account_id] in Hacc. rewrite Hacc in Hc.
    injection Hc as ->. reflexivity.
Defined.

(** X6: bank positions backfill the custodian from the first reference
    that yields one.  When the account has no custodian name before the
    call, after a call on a valid document its custodian name is the name
    derived from the first position of the account whose reference has a
    second segment; positions of the account before it, whose references
    yield no name, leave it unset. *)
Theorem bank_sets_first_derivable_custodian now session file_name data f
    pre p post c :
  BankPositionFile.validate data = inr f →
  BankPositionFile.positions f = pre ++ p :: post →
  extract_custodian_name (Some (BankPosition.custodian_ref p)) = Some c →
  (∀ u, u ∈ pre →
     BankPosition.account_id u = BankPosition.account_id p →
     extract_custodian_name (Some (BankPosition.custodian_ref u)) = None) →
  custodian_unset session (BankPosition.account_id p) →
  ∃ acc,
    accounts (ingest_bank_positions now session file_name (inr data)).2
      !! BankPosition.account_id p = Some acc
    ∧ Account.custodian_name acc = Some c.
Proof.
  intros Hf Hps Hc Hpre Hunset.
  rewrite (ingest_bank_positions_session _ _ _ _ f Hf). unfold bank_writes.
  rewrite Hps, fmap_app, fmap_cons.
  apply writes_first_custodian; try done.
  - by eapply extract_custodian_name_named.
  - intros u (u' & -> & Hu')%list_elem_of_fmap Hacc. simpl in *.
    by rewrite (Hpre u' Hu' Hacc).
Qed.

Lemma bank_sets_first_derivable_custodian_witness :
  ∃ acc,
    accounts (ingest_bank_positions 5%Z sample_session "bank_positions.yaml"
                (inr bare_ref_doc)).2 !! "ACC001" = Some acc
    ∧ Account.custodian_name acc = Some "CUSTODIAN_C".
Proof.
  destruct (bank_sets_first_derivable_custodian 5%Z sample_session
              "bank_positions.yaml" bare_ref_doc
              (BankPositionFile.mk 100
                 [BankPosition.mk "ACC001" "AAPL" 100 (18550 # 1) "UNKNOWN";
                  BankPosition.mk "ACC001" "MSFT" 50 (21012 # 1)
                    "CUST_C_99999";
                  BankPosition.mk "ACC001" "NVDA" 10 (5053 # 1)
                    "CUST_A_12345"])
              [BankPosition.mk "ACC001" "AAPL" 100 (18550 # 1) "UNKNOWN"]
              (BankPosition.mk "ACC001" "MSFT" 50 (21012 # 1) "CUST_C_99999")
              [BankPosition.mk "ACC001" "NVDA" 10 (5053 # 1) "CUST_A_12345"]
              "CUSTODIAN_C")
    as (acc & Hacc & Hname).
  - reflexivity.
  - reflexivity.
  - reflexivity.
  - intros u Hu%list_elem_of_singleton _. subst u. reflexivity.
  - intros a Ha. vm_compute in Ha. injection Ha as <-. reflexivity.
  - exists acc. split; [exact Hacc|exact Hname].
Defined.

(** ** Custodians detected by a call *)

Lemma format2_loop_custodians now rows : ∀ n st,
  (format2_loop now n rows st).2
  = st.2 ∪ list_to_set (TradeFormat2.source_system <$> valid2 rows).
Proof.
  induction rows as [|row rows IH]; intros n st.
  { simpl. by rewrite (right_id_L ∅ (∪)). }
  cbn [format2_loop]. unfold valid2. cbn [omap list_omap].
  destruct (TradeFormat2.validate row) as [e|v] eqn:Hrow.
  - rewrite (format2_row_invalid _ _ _ _ e Hrow), IH. reflexivity.
  - rewrite (format2_row_valid _ _ _ _ v Hrow), IH, fmap_cons.
    cbn [snd list_to_set]. apply set_eq. intros c.
    rewrite !elem_of_union. tauto.
Qed.

Lemma bank_row_custodians now d p st :
  (bank_row now d p st).2
  = list_to_set
      (option_list
         (extract_custodian_name (Some (BankPosition.custodian_ref p))))
    ∪ st.2.
Proof.
  unfold bank_row.
  destruct (extract_custodian_name (Some (BankPosition.custodian_ref p)))
    as [c|] eqn:Hc; simpl.
  - rewrite (extract_custodian_name_named _ _ Hc).
    by rewrite (right_id_L ∅ (∪)).
  - by rewrite (left_id_L ∅ (∪)).
Qed.

Lemma bank_loop_custodians now d ps : ∀ st,
  (foldl (λ st p, bank_row now d p st) st ps).2
  = st.2
    ∪ list_to_set
        (omap (λ p, extract_custodian_name
                      (Some (BankPosition.custodian_ref p))) ps).
Proof.
  induction ps as [|p ps IH]; intros st.
  { simpl. by rewrite (right_id_L ∅ (∪)). }
  cbn [foldl]. rewrite IH, bank_row_custodians. cbn [omap list_omap].
  destruct (extract_custodian_name (Some (BankPosition.custodian_ref p)));
    simpl; apply set_eq; intros c; rewrite !elem_of_union;
    rewrite ?elem_of_empty; tauto.
Qed.

Lemma sorted_strings_strict (cs : gset string) :
  StronglySorted (λ a b, str_leb a b = true ∧ a ≠ b)
    (sorted str_leb (elements cs)).
Proof.
  assert (NoDup (sorted str_leb (elements cs))) as Hnd
    by (rewrite sorted_Permutation; apply NoDup_elements).
  pose proof (sorted_StronglySorted str_leb str_leb_total str_leb_trans
                (elements cs)) as Hs.
  induction Hs as [|c l Hl IH Hc]; [constructor|].
  apply NoDup_cons in Hnd as [Hnin Hnd]. constructor; [by apply IH|].
  rewrite Forall_forall in Hc. apply Forall_forall. intros c' Hc'.
  split; [by apply Hc|]. intros ->. done.
Qed.

(** X7: the custodians that a report lists.  Format A lists none.  After
    a Format B call that commits, the list holds exactly the source
    systems of the accepted rows; after a call on a valid bank document,
    exactly the names derived from the references of its positions.  In
    both cases the list increases strictly in string order (sorted, no
    duplicate), and a call that fails at file level lists none. *)
Theorem custodians_detected_exact now session file_name :
  (∀ file,
     custodians_detected
       (ingest_trade_format1 now session file_name file).1 = [])
  ∧ (∀ rows,
       let detected :=
         custodians_detected
           (ingest_trade_format2 now session file_name
              (mkCsvRead rows None)).1 in
       StronglySorted (λ a b, str_leb a b = true ∧ a ≠ b) detected
       ∧ ∀ c, c ∈ detected ↔
              ∃ v, v ∈ valid2 rows ∧ TradeFormat2.source_system v = c)
  ∧ (∀ rows e,
       custodians_detected
         (ingest_trade_format2 now session file_name
            (mkCsvRead rows (Some e))).1 = [])
  ∧ (∀ file,
       let detected :=
         custodians_detected
           (ingest_bank_positions now session file_name file).1 in
       StronglySorted (λ a b, str_leb a b = true ∧ a ≠ b) detected
       ∧ ∀ c, c ∈ detected ↔
              ∃ data f p,
                file = inr data
                ∧ BankPositionFile.validate data = inr f
                ∧ p ∈ BankPositionFile.positions f
                ∧ extract_custodian_name
                    (Some (BankPosition.custodian_ref p)) = Some c).
Proof.
  split_and!.
  - intros [rows failure]. unfold ingest_trade_format1.
    cbn [csv_rows csv_failure].
    assert (∀ rows n st,
              custodians_detected (format1_loop now n rows st).1
              = custodians_detected st.1) as Hloop.
    { clear. induction rows as [|row rows IH]; intros n st; [done|].
      cbn [format1_loop]. rewrite IH. unfold format1_row.
      destruct (TradeFormat1.validate row); [done|].
      by destruct (query_account _ _). }
    destruct failure; cbn [fst append_error custodians_detected];
      by rewrite Hloop.
  - intros rows detected. subst detected. unfold ingest_trade_format2.
    cbn [csv_rows csv_failure fst set_custodians custodians_detected].
    split; [apply sorted_strings_strict|].
    intros c. rewrite elem_of_sorted, elem_of_elements.
    rewrite format2_loop_custodians. cbn [snd].
    rewrite (left_id_L ∅ (∪)), elem_of_list_to_set, list_elem_of_fmap.
    split; intros (v & ? & ?); exists v; split; congruence.
  - intros rows e. unfold ingest_trade_format2.
    cbn [csv_rows csv_failure fst append_error custodians_detected].
    assert (∀ rows n st,
              custodians_detected (format2_loop now n rows st).1.1
              = custodians_detected st.1.1) as Hloop.
    { clear. induction rows as [|row rows IH]; intros n st; [done|].
      cbn [format2_loop]. rewrite IH. unfold format2_row.
      destruct (TradeFormat2.validate row); [done|].
      by destruct (query_account _ _). }
    by rewrite Hloop.
  - intros file detected. subst detected. unfold ingest_bank_positions.
    destruct file as [e|data].
    { cbn. split; [constructor|]. intros c. split.
      - by intros ?%elem_of_nil.
      - by intros (? & ? & ? & [=] & _). }
    destruct (BankPositionFile.validate data) as [e|f] eqn:Hf.
    { cbn. split; [constructor|]. intros c. split.
      - by intros ?%elem_of_nil.
      - intros (data' & f' & p & [= <-] & Hf' & _). congruence. }
    cbn [fst set_custodians custodians_detected].
    split; [apply sorted_strings_strict|].
    intros c. rewrite elem_of_sorted, elem_of_elements.
    rewrite bank_loop_custodians. cbn [snd].
    rewrite (left_id_L ∅ (∪)), elem_of_list_to_set, list_elem_of_omap.
    split.
    + intros (p & Hp & Hc). by exists data, f, p.
    + intros (data' & f' & p & [= <-] & Hf' & Hp & Hc).
      assert (f' = f) as -> by congruence. eauto.
Qed.

(** ** What the calculators read from an ingested trade *)










(** ** What the validators accept *)









(** ** What the concentration check reports *)




Lemma omap_StronglySorted {A B} (R : relation A) (R' : relation B)
    (f : A → option B) l :
  (∀ x y x' y', f x = Some x' → f y = Some y' → R x y → R' x' y') →
  StronglySorted R l → StronglySorted R' (omap f l).
Proof.
  intros Hf. induction 1 as [|x l Hl IH Hx]; [constructor|].
  cbn [omap list_omap]. destruct (f x) as [x'|] eqn:Hfx; [|done].
  constructor; [done|]. apply Forall_forall.
  intros y' (y & Hy & Hfy)%list_elem_of_omap.
  rewrite Forall_forall in Hx. eauto.
Qed.

Lemma check_account_sorted account_id positions_list :
  StronglySorted
    (λ v v', key_leb (violation_key v) (violation_key v') = true)
    (check_account account_id positions_list)
  ∧ ∀ v, v ∈ check_account account_id positions_list →
      Violation.account_id v = account_id.
Proof.
  split.
  - unfold check_account.
    apply (omap_StronglySorted
             (λ a b, str_leb (Holding.ticker a) (Holding.ticker b) = true)).
    + intros x y x' y' Hx Hy Hxy.
      apply check_position_Some in Hx as (_ & Hix & Htx & _).
      apply check_position_Some in Hy as (_ & Hiy & Hty & _).
      unfold key_leb, violation_key. simpl.
      rewrite Hix, Hiy, Htx, Hty. by rewrite decide_True.
    + apply (sorted_StronglySorted
               (λ a b, str_leb (Holding.ticker a) (Holding.ticker b))).
      * intros. apply str_leb_total.
      * intros ???. apply str_leb_trans.
  - intros v (pos & _ & Hv)%check_account_elem.
    by apply check_position_Some in Hv as (_ & ? & _).
Qed.

Lemma check_violations_sorted (account_positions : list (string * list Holding.t)) :
  NoDup (fst <$> account_positions) →
  StronglySorted
    (λ v v', key_leb (violation_key v) (violation_key v') = true)
    (check_violations account_positions).
Proof.
  intros Hnd. unfold check_violations.
  pose proof (sorted_StronglySorted
                (λ a b : string * list Holding.t, str_leb a.1 b.1)
                (λ a b, str_leb_total a.1 b.1)
                (λ a b c, str_leb_trans a.1 b.1 c.1) account_positions) as Hs.
  assert (NoDup (fst <$> sorted (λ a b : string * list Holding.t,
                                   str_leb a.1 b.1) account_positions))
    as Hnd' by (by rewrite sorted_Permutation).
  induction Hs as [|item items Hitems IH Hitem]; [constructor|].
  rewrite fmap_cons in Hnd'. apply NoDup_cons in Hnd' as [Hnin Hnd'].
  cbn [mbind list_bind]. apply StronglySorted_app_2.
  - intros v v' Hv (item' & Hv' & Hitem')%list_elem_of_bind.
    apply check_account_sorted in Hv. apply check_account_sorted in Hv'.
    unfold key_leb, violation_key. simpl. rewrite Hv, Hv'.
    rewrite decide_False.
    + rewrite Forall_forall in Hitem. by apply Hitem.
    + intros Heq. apply Hnin. rewrite Heq.
      by apply list_elem_of_fmap_2.
  - apply check_account_sorted.
  - by apply IH.
Qed.

Lemma group_trade_positions_NoDup
    (positions_map : list (string * string * (Z * Q))) :
  NoDup (fst <$> group_trade_positions positions_map).
Proof.
  destruct (group_trade_fold positions_map positions_map []) as [H _];
    [done|constructor|by intros ??? ?%elem_of_nil|done].
Qed.

Lemma group_bank_positions_NoDup bank_positions :
  NoDup (fst <$> group_bank_positions bank_positions).
Proof.
  destruct (group_bank_fold bank_positions []) as [H _]; [constructor|done].
Qed.

(** X14: the violations are reported in order.  In both lists the
    violations come by ascending account id and, within an account, by
    ascending ticker. *)
Theorem violations_sorted_by_account_and_ticker session query_date :
  StronglySorted
    (λ v v', key_leb (violation_key v) (violation_key v') = true)
    (compliance_concentration session query_date).1
  ∧ StronglySorted
      (λ v v', key_leb (violation_key v) (violation_key v') = true)
      (compliance_concentration session query_date).2.
Proof.
  split; apply check_violations_sorted.
  - apply group_trade_positions_NoDup.
  - apply group_bank_positions_NoDup.
Qed.

Lemma group_bank_positions_get bank_positions account_id :
  dict_get account_id (group_bank_positions bank_positions)
  = match filter (λ p, Position.account_id p = account_id) bank_positions with
    | [] => None
    | l => Some (bank_holding <$> l)
    end.
Proof.
  unfold group_bank_positions.
  change group_bank_step
    with (dict_step Position.account_id ([] : list Holding.t)
            (λ l p, l ++ [bank_holding p])).
  rewrite dict_fold_get.
  destruct (filter (λ p, Position.account_id p = account_id) bank_positions)
    as [|p l]; [done|].
  f_equal. generalize (p :: l). clear. intros l.
  induction l as [|p l IH] using rev_ind; [done|].
  by rewrite foldl_snoc, IH, fmap_app.
Qed.

Lemma check_violations_intro account_positions account_id positions_list v :
  (account_id, positions_list) ∈ account_positions →
  v ∈ check_account account_id positions_list →
  v ∈ check_violations account_positions.
Proof.
  intros Hin Hv. unfold check_violations. apply list_elem_of_bind.
  exists (account_id, positions_list). split; [done|].
  by apply elem_of_sorted.
Qed.

Lemma check_position_flags account_id positions_list pos :
  pos ∈ positions_list →
  (0 < Holding.market_value pos)%Q →
  (threshold
   < Holding.market_value pos / account_total positions_list)%Q →
  ∃ v, check_position account_id (account_total positions_list) pos = Some v.
Proof.
  intros Hin Hpos Hover.
  pose proof (account_total_ge pos positions_list Hin Hpos) as Hge.
  unfold check_position.
  assert (Qle_bool (Holding.market_value pos) 0 = false) as ->.
  { destruct (Qle_bool (Holding.market_value pos) 0) eqn:Hle; [|done].
    apply Qle_bool_iff in Hle. lra. }
  assert (Qltb 0 (account_total positions_list) = true) as ->
    by (apply Qltb_lt; lra).
  assert (Qltb threshold
            (Holding.market_value pos / account_total positions_list) = true)
    as -> by (by apply Qltb_lt).
  eauto.
Qed.

(** X15: the bank computation flags exactly the snapshot rows that exceed
    the threshold.  A row of the date with a positive value above 20% of
    the total of the positive values of its account on that date is
    reported, with its ticker, shares, value, reference and that total;
    and every reported violation is such a row.  Rows of zero or negative
    value are never reported and do not count in the total. *)
Theorem bank_rows_flagged_exactly session query_date :
  let rows := filter (λ p, Position.report_date p = query_date)
                (positions session) in
  let total_of := λ account_id,
    account_total
      (bank_holding
       <$> filter (λ p, Position.account_id p = account_id) rows) in
  (∀ pos,
     pos ∈ rows →
     (0 < Position.market_value pos)%Q →
     (threshold
      < Position.market_value pos / total_of (Position.account_id pos))%Q →
     ∃ v, v ∈ violations_from_bank session query_date
       ∧ Violation.account_id v = Position.account_id pos
       ∧ Violation.ticker v = Position.ticker pos
       ∧ Violation.shares v = Position.shares pos
       ∧ Violation.market_value v = Position.market_value pos
       ∧ Violation.custodian_ref v = Position.custodian_ref pos
       ∧ Violation.account_total_value v
         = total_of (Position.account_id pos))
  ∧ (∀ v,
       v ∈ violations_from_bank session query_date →
       ∃ pos, pos ∈ rows
         ∧ Violation.account_id v = Position.account_id pos
         ∧ Violation.ticker v = Position.ticker pos
         ∧ Violation.shares v = Position.shares pos
         ∧ Violation.market_value v = Position.market_value pos
         ∧ Violation.account_total_value v
           = total_of (Position.account_id pos)
         ∧ (0 < Position.market_value pos)%Q
         ∧ (threshold
            < Position.market_value pos
              / total_of (Position.account_id pos))%Q).
Proof.
  intros rows total_of. unfold violations_from_bank. fold rows. split.
  - intros pos Hpos Hval Hover.
    set (l := filter (λ p, Position.account_id p = Position.account_id pos)
                rows).
    assert (pos ∈ l) as Hl by (by apply list_elem_of_filter).
    assert (dict_get (Position.account_id pos) (group_bank_positions rows)
            = Some (bank_holding <$> l)) as Hget.
    { rewrite group_bank_positions_get. fold l.
      destruct l; [by apply elem_of_nil in Hl|done]. }
    assert (bank_holding pos ∈ bank_holding <$> l) as Hh
      by (by apply list_elem_of_fmap_2).
    destruct (check_position_flags (Position.account_id pos) _ _ Hh Hval Hover)
      as [v Hv].
    exists v. split.
    + eapply check_violations_intro; [by apply dict_get_elem|].
      unfold check_account. apply list_elem_of_omap.
      exists (bank_holding pos). split; [by apply elem_of_sorted|done].
    + apply check_position_Some in Hv
        as (_ & Hid & Htk & Hsh & Hmv & Htot & Href & _).
      by split_and!.
  - intros v (a & hs & Hin & Hv)%check_violations_elem.
    apply dict_elem_get in Hin; [|apply group_bank_positions_NoDup].
    rewrite group_bank_positions_get in Hin.
    set (l := filter (λ p, Position.account_id p = a) rows) in *.
    assert (hs = bank_holding <$> l) as ->
      by (destruct l; [done|by injection Hin as <-]).
    apply check_account_elem in Hv as (h & Hh & Hv).
    apply list_elem_of_fmap in Hh as (pos & -> & Hpos).
    apply list_elem_of_filter in Hpos as [Ha Hpos]. subst a.
    exists pos. split; [done|].
    pose proof Hv as Hfields.
    apply check_position_Some in Hfields
      as (Hval & Hid & Htk & Hsh & Hmv & Htot & _ & _).
    split_and!; try done.
    revert Hv. unfold check_position.
    destruct (Qle_bool (Holding.market_value (bank_holding pos)) 0);
      [done|].
    assert (bank_holding pos ∈ bank_holding <$> l) as Hh.
    { apply list_elem_of_fmap_2. by apply list_elem_of_filter. }
    pose proof (account_total_ge _ _ Hh Hval) as Hge.
    assert (Qltb 0 (account_total (bank_holding <$> l)) = true) as ->
      by (apply Qltb_lt; lra).
    destruct (Qltb threshold _) eqn:Hover; [|done].
    intros _. by apply Qltb_lt in Hover.
Qed.

Lemma bank_rows_flagged_exactly_witness :
  ∃ pos v,
    positions long_short_session !! 0 = Some pos
    ∧ Position.ticker pos = "NVDA"
    ∧ v ∈ violations_from_bank long_short_session 100%Z
    ∧ Violation.ticker v = "NVDA"
    ∧ (Violation.account_total_value v == 40424)%Q
    ∧ Violation.ticker <$> violations_from_bank long_short_session 100%Z
      = ["NVDA"].
Proof.
  assert (∃ pos, positions long_short_session !! 0 = Some pos
                 ∧ Position.ticker pos = "NVDA"
                 ∧ Position.report_date pos = 100%Z
                 ∧ (Position.market_value pos == 40424)%Q)
    as (pos & Hpos & Htk & Hdate & Hmv)
    by (eexists; split; [vm_compute; reflexivity|];
        split; [reflexivity|split; reflexivity]).
  assert (pos ∈ filter (λ p, Position.report_date p = 100%Z)
                  (positions long_short_session)) as Hin.
  { apply list_elem_of_filter. split; [done|].
    by apply (list_elem_of_lookup_2 _ 0). }
  assert (account_total
            (bank_holding
             <$> filter (λ p, Position.account_id p = Position.account_id pos)
                   (filter (λ p, Position.report_date p = 100%Z)
                      (positions long_short_session))) == 40424)%Q as Htot.
  { vm_compute in Hpos. injection Hpos as <-. vm_compute. reflexivity. }
  destruct (proj1 (bank_rows_flagged_exactly long_short_session 100%Z)
              pos Hin) as (v & Hv & _ & Hvt & _ & _ & _ & Hvtot).
  - rewrite Hmv. reflexivity.
  - rewrite Htot, Hmv. reflexivity.
  - exists pos, v. split; [exact Hpos|]. split; [exact Htk|].
    split; [exact Hv|]. split; [congruence|].
    split; [rewrite Hvtot; exact Htot|]. vm_compute. reflexivity.
Defined.

(** ** Sums along the aggregation loops *)



Lemma foldl_values (value : Trade.t → Q) (ts : list Trade.t) (z0 : Z)
    (x0 : Q) :
  ((foldl (λ (cur : Z * Q) t, ((cur.1 + Trade.quantity t)%Z,
                                (cur.2 + value t)%Q)) (z0, x0) ts).2
   == x0 + Qsum (value <$> ts))%Q.
Proof.
  revert z0 x0. induction ts as [|t ts IH]; intros z0 x0.
  - simpl. unfold Qsum. simpl. ring.
  - cbn [foldl fst snd]. rewrite IH, fmap_cons, Qsum_cons. ring.
Qed.



Lemma concentration_map_value ts key data :
  (key, data) ∈ foldl concentration_step [] ts →
  (data.2 == Qsum (trade_value <$> filter (λ t, trade_key t = key) ts))%Q.
Proof.
  change concentration_step
    with (dict_step trade_key (0%Z, 0%Q)
            (λ (cur : Z * Q) t, ((cur.1 + Trade.quantity t)%Z,
                                 (cur.2 + trade_value t)%Q))).
  intros Hin. apply dict_elem_get in Hin; [|apply dict_fold_NoDup].
  rewrite dict_fold_get in Hin.
  destruct (filter (λ t, trade_key t = key) ts) as [|t l]; [done|].
  injection Hin as <-.
  rewrite (foldl_values trade_value (t :: l) 0 0). ring.
Qed.

(** X16: the value of a trade-derived violation is the signed sum of its
    trades.  For every violation of the trade computation, the reported
    market value is the sum, over the trades of its account and ticker up
    to the date, of price times signed quantity (or of the market value
    when the trade has no price), and this sum is positive. *)
Theorem trade_violation_value_is_signed_sum session query_date v :
  v ∈ violations_from_trades session query_date →
  let ts := filter (λ t, (Trade.trade_date t ≤ query_date)%Z)
              (trades session) in
  (Violation.market_value v
   == Qsum (trade_value
            <$> filter (λ t, trade_key t = violation_key v) ts))%Q
  ∧ (0 < Qsum (trade_value
               <$> filter (λ t, trade_key t = violation_key v) ts))%Q.
Proof.
  intros Hv ts. unfold violations_from_trades in Hv. fold ts in Hv.
  apply check_violations_elem in Hv as (a & l & Hal & Hv).
  apply check_account_elem in Hv as (pos & Hpos & Hv).
  apply check_position_Some in Hv as (Hval & Hid & Htick & _ & Hmv & _).
  destruct (group_trade_positions_elem _ _ _ _ Hal Hpos) as [_ Hitem].
  apply concentration_map_value in Hitem. simpl in Hitem.
  unfold violation_key. rewrite Hid, Htick, Hmv, <- Hitem. by split.
Qed.

Lemma trade_violation_value_is_signed_sum_witness :
  ∃ v, violations_from_trades sample_session 100%Z !! 2 = Some v
       ∧ violation_key v = ("ACC003", "NVDA")
       ∧ (0 < Qsum (trade_value
                    <$> filter (λ t, trade_key t = violation_key v)
                          (filter (λ t, (Trade.trade_date t ≤ 100)%Z)
                             (trades sample_session))))%Q.
Proof.
  eexists. split; [vm_compute; reflexivity|]. split; [reflexivity|].
  apply (trade_violation_value_is_signed_sum sample_session 100%Z).
  apply (list_elem_of_lookup_2 _ 2). vm_compute. reflexivity.
Defined.

(** ** The position calculator *)






(** ** Reports *)





(** ** Reconciliation with a side missing *)

Lemma reconciliation_elem session query_date d :
  let ts := filter (λ t, (Trade.trade_date t ≤ query_date)%Z)
              (trades session) in
  let ps := filter (λ p, Position.report_date p = query_date)
              (positions session) in
  d ∈ discrepancies (reconciliation session query_date) ↔
  ∃ key,
    net_shares ts key ≠ snapshot_shares ps key
    ∧ d = Discrepancy.mk key.1 key.2 (net_shares ts key)
            (snapshot_shares ps key)
            (snapshot_shares ps key - net_shares ts key)%Z
            (status_of (net_shares ts key) (snapshot_shares ps key)).
Proof.
  intros ts ps. unfold reconciliation. fold ts ps.
  cbn [discrepancies]. unfold find_discrepancies.
  rewrite list_elem_of_omap. split.
  - intros (key & _ & Hd). exists key. unfold discrepancy_of in Hd.
    rewrite expected_positions_net, bank_positions_map_lookup in Hd.
    fold (snapshot_shares ps key) in Hd.
    case_decide; [|done]. by injection Hd as <-.
  - intros (key & Hne & ->). exists key. split.
    + apply elem_of_sorted, elem_of_elements.
      destruct (decide (key ∈ dom (expected_positions ts)
                        ∪ dom (bank_positions_map ps))) as [|Hnin]; [done|].
      exfalso. apply Hne. rewrite elem_of_union in Hnin.
      rewrite <- expected_positions_net. unfold snapshot_shares.
      rewrite <- bank_positions_map_lookup.
      rewrite (not_elem_of_dom_1 (expected_positions ts) key) by tauto.
      by rewrite (not_elem_of_dom_1 (bank_positions_map ps) key) by tauto.
    + unfold discrepancy_of.
      rewrite expected_positions_net, bank_positions_map_lookup.
      fold (snapshot_shares ps key). by rewrite decide_True.
Qed.

(** X21: reconciliation when one side is missing, and its counters.  The
    response counts the snapshot rows of the date and the distinct
    (account, ticker) keys traded up to the date.  Without any snapshot
    row for the date every discrepancy is "missing_in_bank" with actual
    shares 0; without any trade up to the date every discrepancy is
    "missing_in_trades" with expected shares 0; with neither there is no
    discrepancy. *)
Theorem reconciliation_with_a_side_missing session query_date :
  let ts := filter (λ t, (Trade.trade_date t ≤ query_date)%Z)
              (trades session) in
  let ps := filter (λ p, Position.report_date p = query_date)
              (positions session) in
  let response := reconciliation session query_date in
  total_positions_in_bank response = length ps
  ∧ total_positions_from_trades response
    = length (remove_dups (trade_key <$> ts))
  ∧ (ps = [] →
     ∀ d, d ∈ discrepancies response →
       Discrepancy.actual_shares d = 0%Z
       ∧ Discrepancy.status d = "missing_in_bank"
       ∧ Discrepancy.difference d = (- Discrepancy.expected_shares d)%Z)
  ∧ (ts = [] →
     ∀ d, d ∈ discrepancies response →
       Discrepancy.expected_shares d = 0%Z
       ∧ Discrepancy.status d = "missing_in_trades"
       ∧ Discrepancy.difference d = Discrepancy.actual_shares d)
  ∧ (ts = [] → ps = [] → discrepancies response = []).
Proof.
  intros ts ps response.
  assert (∀ d, d ∈ discrepancies response ↔
            ∃ key,
              net_shares ts key ≠ snapshot_shares ps key
              ∧ d = Discrepancy.mk key.1 key.2 (net_shares ts key)
                      (snapshot_shares ps key)
                      (snapshot_shares ps key - net_shares ts key)%Z
                      (status_of (net_shares ts key)
                         (snapshot_shares ps key))) as Helem
    by (intros d; apply reconciliation_elem).
  split_and!.
  - done.
  - change (total_positions_from_trades response)
      with (size (expected_positions ts)).
    rewrite <- size_dom.
    assert (dom (expected_positions ts)
            = list_to_set (remove_dups (trade_key <$> ts))) as ->.
    { apply set_eq. intros key.
      rewrite expected_positions_dom, elem_of_list_to_set,
        elem_of_remove_dups, list_elem_of_fmap.
      split; intros (t & ? & ?); exists t; split; congruence. }
    apply size_list_to_set, NoDup_remove_dups.
  - intros Hps d (key & Hne & ->)%Helem. rewrite Hps in *.
    unfold snapshot_shares in *. simpl in *. unfold status_of.
    rewrite decide_True by done. split_and!; [done|done|lia].
  - intros Hts d (key & Hne & ->)%Helem. rewrite Hts in *.
    unfold net_shares in *. simpl in *. unfold status_of.
    rewrite decide_False by done. rewrite decide_True by done.
    split_and!; [done|done|lia].
  - intros Hts Hps.
    destruct (discrepancies response) as [|d ds]; [done|].
    assert (d ∈ d :: ds) as Hd by left.
    apply Helem in Hd as (key & Hne & _). rewrite Hts, Hps in Hne.
    by destruct Hne.
Qed.

Lemma reconciliation_with_a_side_missing_witness :
  filter (λ p, Position.report_date p = 100%Z) (positions sample_session) = []
  ∧ Forall (λ d, Discrepancy.status d = "missing_in_bank")
      (discrepancies (reconciliation sample_session 100%Z)).
Proof.
  assert (filter (λ p, Position.report_date p = 100%Z)
                 (positions sample_session) = []) as Hps by reflexivity.
  split; [exact Hps|]. apply Forall_forall. intros d Hd.
  destruct (reconciliation_with_a_side_missing sample_session 100%Z)
    as (_ & _ & Hbank & _).
  by destruct (Hbank Hps d Hd) as (_ & ? & _).
Defined.

(** ** Ingestion as a sequence of appends *)

Lemma ingest_file_records now session file_name file file_format :
  let out := ingest_file now session file_name file file_format in
  ∃ ws,
    accounts out.2 = accounts (foldl (apply_write now) session ws)
    ∧ trades out.2 = trades session ++ omap write_trade ws
    ∧ positions out.2 = positions session ++ omap write_position ws
    ∧ (file_format ≠ "YAML_POSITIONS" → omap write_position ws = [])
    ∧ (file_format ≠ "CSV_FORMAT1" → file_format ≠ "PIPE_FORMAT2" →
       omap write_trade ws = []).
Proof.
  assert (∀ {A} (g : A → Trade.t) a c (l : list A),
            omap write_position ((λ v, WTrade (a v) (c v) (g v)) <$> l) = [])
    as Hnopos by (intros A g a c l; by induction l).
  assert (∀ {A} (g : A → Position.t) a c (l : list A),
            omap write_trade ((λ v, WPosition (a v) (c v) (g v)) <$> l) = [])
    as Hnotr by (intros A g a c l; by induction l).
  assert (∃ ws : list Write,
            accounts session = accounts (foldl (apply_write now) session ws)
            ∧ trades session = trades session ++ omap write_trade ws
            ∧ positions session = positions session ++ omap write_position ws
            ∧ (file_format ≠ "YAML_POSITIONS" → omap write_position ws = [])
            ∧ (file_format ≠ "CSV_FORMAT1" → file_format ≠ "PIPE_FORMAT2" →
               omap write_trade ws = [])) as Hsame.
  { exists []. simpl. by rewrite !app_nil_r. }
  unfold ingest_file.
  destruct (decide (file_format = "CSV_FORMAT1")) as [->|H1];
    [|destruct (decide (file_format = "PIPE_FORMAT2")) as [->|H2];
      [|destruct (decide (file_format = "YAML_POSITIONS")) as [->|H3]]].
  - destruct (csv_view file) as [rows [e|]].
    + by destruct (ingest_trade_format1_spec now session file_name rows
                     (Some e)) as (_ & _ & _ & _ & _ & -> & _).
    + rewrite ingest_trade_format1_session.
      exists (format1_writes file_name rows).
      destruct (writes_records now (format1_writes file_name rows) session)
        as [-> ->].
      split_and!; [done|done|done| |done].
      intros _. apply Hnopos.
  - destruct (pipe_view file) as [rows [e|]].
    + by destruct (ingest_trade_format2_spec now session file_name rows
                     (Some e)) as (_ & _ & _ & _ & _ & -> & _).
    + rewrite ingest_trade_format2_session.
      exists (format2_writes file_name rows).
      destruct (writes_records now (format2_writes file_name rows) session)
        as [-> ->].
      split_and!; [done|done|done| |done].
      intros _. apply Hnopos.
  - destruct (yaml_view file) as [e|data]; [done|].
    destruct (BankPositionFile.validate data) as [e|f] eqn:Hf.
    + unfold ingest_bank_positions. by rewrite Hf.
    + rewrite (ingest_bank_positions_session _ _ _ _ f Hf).
      exists (bank_writes file_name f).
      destruct (writes_records now (bank_writes file_name f) session)
        as [-> ->].
      split_and!; [done|done|done|done|].
      intros _ _. apply Hnotr.
  - done.
Qed.

(** X22: ingestion only appends.  After any call of [ingest_file] the
    trades and the positions of before are a prefix of those of after and
    every account of before still exists; a call with a trade format adds
    no position and a call with any other format adds no trade. *)
Theorem ingestion_only_appends now session file_name file file_format :
  let out := ingest_file now session file_name file file_format in
  trades session `prefix_of` trades out.2
  ∧ positions session `prefix_of` positions out.2
  ∧ dom (accounts session) ⊆ dom (accounts out.2)
  ∧ (file_format ≠ "YAML_POSITIONS" → positions out.2 = positions session)
  ∧ (file_format ≠ "CSV_FORMAT1" → file_format ≠ "PIPE_FORMAT2" →
     trades out.2 = trades session).
Proof.
  intros out.
  destruct (ingest_file_records now session file_name file file_format)
    as (ws & Hacc & Htr & Hpos & Hnopos & Hnotr).
  fold out in Hacc, Htr, Hpos. rewrite Hacc, Htr, Hpos. split_and!.
  - by apply prefix_app_r.
  - by apply prefix_app_r.
  - rewrite writes_dom. apply union_subseteq_l.
  - intros H. by rewrite (Hnopos H), app_nil_r.
  - intros H1 H2. by rewrite (Hnotr H1 H2), app_nil_r.
Qed.

Lemma ingestion_only_appends_witness :
  positions (ingest_file 3%Z recon_session "trades_format2.txt"
               (mkFile (mkCsvRead [] None)
                  (mkCsvRead two_custodian_rows None)
                  (inl "not a YAML mapping")) "PIPE_FORMAT2").2
  = positions recon_session.
Proof.
  apply (ingestion_only_appends 3%Z recon_session "trades_format2.txt"
           (mkFile (mkCsvRead [] None) (mkCsvRead two_custodian_rows None)
              (inl "not a YAML mapping")) "PIPE_FORMAT2").
  discriminate.
Defined.

(** ** Ingesting the same records again *)

Lemma settled_apply_noop now s w :
  settled s w → accounts (apply_write now s w) = accounts s.
Proof.
  intros (acc & Hacc & Hname). rewrite apply_write_accounts.
  unfold ensure_account_exists, query_account. rewrite Hacc.
  destruct (opt_str_truthy (write_custodian w)) eqn:Hc; simpl; [|done].
  by rewrite Hname.
Qed.

Lemma settled_after_apply now s w : settled (apply_write now s w) w.
Proof.
  unfold settled. rewrite apply_write_accounts.
  unfold ensure_account_exists, query_account.
  destruct (accounts s !! write_account w) as [acc|] eqn:Hacc; simpl.
  - destruct (opt_str_truthy (write_custodian w)) eqn:Hc; simpl.
    + destruct (opt_str_truthy (Account.custodian_name acc)) eqn:Hn; simpl.
      * eauto.
      * rewrite lookup_insert_eq. eauto.
    + exists acc. split; [done|]. discriminate.
  - rewrite lookup_insert_eq. eauto.
Qed.

Lemma settled_kept s s' w : session_kept s s' → settled s w → settled s' w.
Proof.
  intros Hkept (acc & Hacc & Hname).
  destruct (Hkept _ _ Hacc) as (acc' & Hacc' & _ & _ & Hsame).
  exists acc'. split; [done|]. intros Hc. specialize (Hname Hc).
  by rewrite (Hsame Hname).
Qed.

Lemma apply_write_kept now s w : session_kept s (apply_write now s w).
Proof.
  intros k a Ha. rewrite apply_write_accounts.
  by apply ensure_account_exists_kept.
Qed.

Lemma writes_settle now ws : ∀ s,
  Forall (settled (foldl (apply_write now) s ws)) ws.
Proof.
  induction ws as [|w ws IH]; intros s; [constructor|].
  cbn [foldl]. constructor; [|apply IH].
  eapply settled_kept; [apply writes_kept|apply settled_after_apply].
Qed.

Lemma settled_writes_noop now ws : ∀ s,
  Forall (settled s) ws →
  accounts (foldl (apply_write now) s ws) = accounts s.
Proof.
  induction ws as [|w ws IH]; intros s Hall; [done|].
  apply Forall_cons in Hall as [Hw Hws]. cbn [foldl].
  rewrite IH, settled_apply_noop; [done|done|].
  eapply Forall_impl; [exact Hws|].
  intros w'. apply settled_kept, apply_write_kept.
Qed.

Lemma writes_twice now now' ws s :
  let s1 := foldl (apply_write now) s ws in
  let s2 := foldl (apply_write now') s1 ws in
  accounts s2 = accounts s1
  ∧ trades s2 = trades s ++ omap write_trade ws ++ omap write_trade ws
  ∧ positions s2
    = positions s ++ omap write_position ws ++ omap write_position ws.
Proof.
  intros s1 s2. split_and!.
  - apply settled_writes_noop, writes_settle.
  - subst s1 s2.
    destruct (writes_records now' ws (foldl (apply_write now) s ws))
      as [-> _].
    destruct (writes_records now ws s) as [-> _]. by rewrite app_assoc.
  - subst s1 s2.
    destruct (writes_records now' ws (foldl (apply_write now) s ws))
      as [_ ->].
    destruct (writes_records now ws s) as [_ ->]. by rewrite app_assoc.
Qed.

(** X23: there is no deduplication.  Ingesting the same rows a second
    time (at any clock) stores every accepted record a second time,
    after those of the first call, while the accounts stay exactly as the
    first call left them: for Format A, for Format B and, when the
    document validates, for bank positions. *)
Theorem reingestion_duplicates_records now now' session file_name :
  (∀ rows,
     let out1 := ingest_trade_format1 now session file_name
                   (mkCsvRead rows None) in
     let out2 := ingest_trade_format1 now' out1.2 file_name
                   (mkCsvRead rows None) in
     let new := format1_trade (new_report file_name "CSV_FORMAT1")
                <$> valid1 rows in
     accounts out2.2 = accounts out1.2
     ∧ trades out2.2 = trades session ++ new ++ new)
  ∧ (∀ rows,
       let out1 := ingest_trade_format2 now session file_name
                     (mkCsvRead rows None) in
       let out2 := ingest_trade_format2 now' out1.2 file_name
                     (mkCsvRead rows None) in
       let new := format2_trade (new_report file_name "PIPE_FORMAT2")
                  <$> valid2 rows in
       accounts out2.2 = accounts out1.2
       ∧ trades out2.2 = trades session ++ new ++ new)
  ∧ (∀ data f,
       BankPositionFile.validate data = inr f →
       let out1 := ingest_bank_positions now session file_name (inr data) in
       let out2 := ingest_bank_positions now' out1.2 file_name (inr data) in
       let new := stored_position file_name (BankPositionFile.report_date f)
                  <$> BankPositionFile.positions f in
       accounts out2.2 = accounts out1.2
       ∧ positions out2.2 = positions session ++ new ++ new).
Proof.
  assert (∀ {A} (g : A → Trade.t) a c (l : list A),
            omap write_trade ((λ v, WTrade (a v) (c v) (g v)) <$> l)
            = g <$> l) as Htr.
  { intros A g a c l. induction l as [|x l IH]; [done|].
    rewrite !fmap_cons. cbn [omap list_omap write_trade]. by f_equal. }
  assert (∀ {A} (g : A → Position.t) a c (l : list A),
            omap write_position ((λ v, WPosition (a v) (c v) (g v)) <$> l)
            = g <$> l) as Hpos.
  { intros A g a c l. induction l as [|x l IH]; [done|].
    rewrite !fmap_cons. cbn [omap list_omap write_position]. by f_equal. }
  split_and!.
  - intros rows out1 out2 new. subst out1 out2.
    rewrite !ingest_trade_format1_session.
    destruct (writes_twice now now' (format1_writes file_name rows) session)
      as (Hacc & Htrades & _).
    split; [exact Hacc|]. rewrite Htrades. unfold format1_writes.
    by rewrite Htr.
  - intros rows out1 out2 new. subst out1 out2.
    rewrite !ingest_trade_format2_session.
    destruct (writes_twice now now' (format2_writes file_name rows) session)
      as (Hacc & Htrades & _).
    split; [exact Hacc|]. rewrite Htrades. unfold format2_writes.
    by rewrite Htr.
  - intros data f Hf out1 out2 new. subst out1 out2.
    rewrite !(ingest_bank_positions_session _ _ _ _ f Hf).
    destruct (writes_twice now now' (bank_writes file_name f) session)
      as (Hacc & _ & Hpositions).
    split; [exact Hacc|]. rewrite Hpositions. unfold bank_writes.
    by rewrite Hpos.
Qed.

Lemma reingestion_duplicates_records_witness :
  let f := BankPositionFile.mk 100
             [BankPosition.mk "ACC001" "AAPL" 100 (18550 # 1) "UNKNOWN";
              BankPosition.mk "ACC001" "MSFT" 50 (21012 # 1) "CUST_C_99999";
              BankPosition.mk "ACC001" "NVDA" 10 (5053 # 1) "CUST_A_12345"] in
  let out1 := ingest_bank_positions 0%Z sample_session "bank_positions.yaml"
                (inr bare_ref_doc) in
  let out2 := ingest_bank_positions 9%Z out1.2 "bank_positions.yaml"
                (inr bare_ref_doc) in
  BankPositionFile.validate bare_ref_doc = inr f
  ∧ accounts out2.2 = accounts out1.2
  ∧ length (positions out2.2) = 6.
Proof.
  intros f out1 out2.
  assert (BankPositionFile.validate bare_ref_doc = inr f) as Hf
    by reflexivity.
  destruct (reingestion_duplicates_records 0%Z 9%Z sample_session
              "bank_positions.yaml") as (_ & _ & Hbank).
  destruct (Hbank bare_ref_doc f Hf) as [Hacc Hpos].
  split; [exact Hf|]. split; [exact Hacc|].
  fold out1 out2 in Hpos. rewrite Hpos. reflexivity.
Defined.
